(** * geotiff-to-coco: the projection-and-annotation pipeline of
      [geo_to_coco.py], embedded and verified.

    Conventions of the embedding.
    - Python [float]s (longitudes, latitudes, affine coefficients, areas)
      are modelled by exact rationals [Q]; [int(.)] of a float is
      truncation toward zero.  Python [int]s and numpy integer arrays are
      modelled by [Z] (clamped pixel coordinates lie in the tile, far from
      the 64-bit range).
    - Exceptions are values of an error monad [result].
    - The collaborators the class calls into (rasterio, shapely, pyproj,
      PIL, os.path) are the fields of the record [Env.t]. *)

From Stdlib Require Import ZArith QArith Qround Qabs Qminmax List String Bool Lia.
From Stdlib Require Import Sorted Ascii.
Import ListNotations.
Open Scope Z_scope.

(** ** Exceptions *)

Inductive exn : Type :=
| ValueError
| WKTReadingError
| ZeroDivisionError
| IndexError
| KeyError
| AttributeError.

Inductive result (A : Type) : Type :=
| Ok (v : A)
| Raise (err : exn).
Arguments Ok {A} v.
Arguments Raise {A} err.

Definition bind {A B : Type} (m : result A) (k : A -> result B) : result B :=
  match m with
  | Ok v => k v
  | Raise err => Raise err
  end.

Notation "x <- m ;; k" := (bind m (fun x => k))
  (at level 61, m at next level, right associativity).
Notation "' pat <- m ;; k" := (bind m (fun x => match x with pat => k end))
  (at level 61, pat pattern, m at next level, right associativity).

(** ** Python and numpy primitives *)

(** [int(q)] for a float [q]: truncation toward zero. *)
Definition py_int (q : Q) : Z := Z.quot (Qnum q) (Z.pos (Qden q)).

(** [x / y] on floats: raises on a zero divisor. *)
Definition true_div (x y : Q) : result Q :=
  if Qeq_bool y 0 then Raise ZeroDivisionError else Ok (x / y)%Q.

(** [l[i]] with Python's negative indices; an index outside
    [-len(l), len(l)) raises. *)
Definition py_index (l : list Z) (i : Z) : result Z :=
  let n := Z.of_nat (List.length l) in
  let j := if i <? 0 then n + i else i in
  if (j <? 0) || (n <=? j) then Raise IndexError
  else match nth_error l (Z.to_nat j) with
       | Some v => Ok v
       | None => Raise IndexError
       end.

(** [range(lo, hi)] *)
Definition range (lo hi : Z) : list Z :=
  map (fun k => lo + Z.of_nat k) (seq 0 (Z.to_nat (hi - lo))).

(** [sum(term(i) for i in idxs)], the running total starting at [total]. *)
Fixpoint py_sum (term : Z -> result Z) (idxs : list Z) (total : Z) : result Z :=
  match idxs with
  | [] => Ok total
  | i :: rest => t <- term i ;; py_sum term rest (total + t)
  end.

(** [enumerate(l)] *)
Definition enumerate {A : Type} (l : list A) : list (Z * A) :=
  combine (range 0 (Z.of_nat (List.length l))) l.

(** [arr.max()] and [arr.min()] of a one-dimensional array whose first
    element is [x]. *)
Definition np_max (x : Z) (xs : list Z) : Z := fold_left Z.max xs x.
Definition np_min (x : Z) (xs : list Z) : Z := fold_left Z.min xs x.

(** [np.clip(v, lo, hi)] = [minimum(maximum(v, lo), hi)] *)
Definition np_clip (v lo hi : Z) : Z := Z.min (Z.max v lo) hi.

(** An insertion-ordered [dict] with string keys. *)
Definition dict (V : Type) : Type := list (string * V).

Fixpoint dict_set {V : Type} (k : string) (v : V) (d : dict V) : dict V :=
  match d with
  | [] => [(k, v)]
  | (k', v') :: d' =>
      if String.eqb k k' then (k', v) :: d' else (k', v') :: dict_set k v d'
  end.

Fixpoint dict_get {V : Type} (k : string) (d : dict V) : result V :=
  match d with
  | [] => Raise KeyError
  | (k', v') :: d' => if String.eqb k k' then Ok v' else dict_get k d'
  end.

(** [Series.unique()]: the distinct values in order of first appearance. *)
Fixpoint unique_from (seen : list string) (l : list string) : list string :=
  match l with
  | [] => []
  | s :: l' =>
      if existsb (String.eqb s) seen then unique_from seen l'
      else s :: unique_from (s :: seen) l'
  end.
Definition unique (l : list string) : list string := unique_from [] l.

(** ** Data model *)

(** rasterio's affine transform: six coefficients. *)
Module Affine.
Record t : Type := { a : Q; b : Q; c : Q; d : Q; e : Q; f : Q }.
End Affine.

(** rasterio's [BoundingBox]. *)
Module Bounds.
Record t : Type := { left : Q; bottom : Q; right : Q; top : Q }.
End Bounds.

(** A coordinate reference system, as far as the code inspects it. *)
Module CRS.
Record t : Type := { to_epsg : option Z }.
End CRS.

(** A pyproj transformer: [transform(lon, lat)]. *)
Definition Transformer : Type := Q -> Q -> Q * Q.

(** A shapely geometry.  Only a [Polygon] has the attribute [exterior]. *)
Inductive BaseGeometry : Type :=
| Polygon (exterior : list (Q * Q)) (interiors : list (list (Q * Q)))
| OtherGeometry.

(** A cell of the [geometry] column as [pd.read_csv] delivers it: a string,
    or a missing value. *)
Inductive cell : Type :=
| CStr (wkt : string)
| CMissing.

(** The same cell after line 97: a shapely geometry, or the missing value
    left as it was. *)
Inductive parsed : Type :=
| PGeom (g : BaseGeometry)
| PMissing.

(** What a dataset opened by rasterio exposes. *)
Module Raster.
Record t : Type := {
  width : Z;
  height : Z;
  crs : option CRS.t;
  transform : Affine.t;
  bounds : Bounds.t }.
End Raster.

Module ImageInfo.
Record t : Type := {
  id : Z;
  path : string;
  filename : string;
  width : Z;
  height : Z;
  crs : option CRS.t;
  transform : Affine.t;
  bounds : Bounds.t }.
End ImageInfo.

Module CocoImage.
Record t : Type := {
  id : Z;
  width : Z;
  height : Z;
  file_name : string;
  license : Z }.
End CocoImage.

Module Category.
Record t : Type := { id : Z; name : string; supercategory : string }.
End Category.

Module Annotation.
Record t : Type := {
  id : Z;
  image_id : Z;
  category_id : Z;
  segmentation : list (list Z);
  area : Q;
  bbox : list Z;
  iscrowd : Z }.
End Annotation.

Module Mapping.
Record t : Type := {
  annotation_id : Z;
  image_id : Z;
  image_filename : string;
  polygon_csv_idx : Z;
  category_name : string;
  category_id : Z;
  bbox : list Z;
  area : Q }.
End Mapping.

(** One row of the polygon table, before and after [load_csv] parses it. *)
Module RawRow.
Record t : Type := { building : string; geometry : cell }.
End RawRow.

Module TableRow.
Record t : Type := { building : string; geometry : parsed }.
End TableRow.

(** The frame read by [pd.read_csv]: its column names and, per row, the
    values of the two columns the code reads. *)
Module Csv.
Record t : Type := { columns : list string; rows : list RawRow.t }.
End Csv.

(** An entry of [valid_polygons]. *)
Module ValidPolygon.
Record t : Type := {
  building : string;
  coords : list (Z * Z);
  original_idx : Z }.
End ValidPolygon.

(** [self.coco_format], without the constant [info] and [licenses]. *)
Module Coco.
Record t : Type := {
  images : list CocoImage.t;
  annotations : list Annotation.t;
  categories : list Category.t }.
End Coco.

(** The object state of the class [GeoTiffToCoco]. *)
Module Self.
Record t : Type := {
  min_area : Q;
  images_info : list ImageInfo.t;
  df : list TableRow.t;
  categories : dict Z;
  annotation_mapping : list Mapping.t;
  coco_format : Coco.t }.
End Self.

(** [GeoTiffToCoco.__init__] *)
Definition init (min_area : Q) : Self.t :=
  {| Self.min_area := min_area;
     Self.images_info := [];
     Self.df := [];
     Self.categories := [];
     Self.annotation_mapping := [];
     Self.coco_format :=
       {| Coco.images := []; Coco.annotations := []; Coco.categories := [] |} |}.

(** ** Coordinate projector *)

Definition reproject (transformer : option Transformer) (lon lat : Q) : Q * Q :=
  match transformer with
  | Some t => t lon lat
  | None => (lon, lat)
  end.

(** [GeoTiffToCoco.geographic_to_pixel] *)
Definition geographic_to_pixel (lon lat : Q) (transform : Affine.t)
    (transformer : option Transformer) : result (Z * Z) :=
  let '(x, y) := reproject transformer lon lat in
  qc <- true_div (x - Affine.c transform) (Affine.a transform) ;;
  let col := py_int qc in
  qr <- true_div (y - Affine.f transform) (Affine.e transform) ;;
  let row := py_int qr in
  Ok (col, row).

(** ** Polygon rasterizer *)

(** [polygon.exterior.coords]: only a shapely [Polygon] has it. *)
Definition exterior_coords_of (polygon : parsed) : result (list (Q * Q)) :=
  match polygon with
  | PGeom (Polygon exterior _) => Ok exterior
  | _ => Raise AttributeError
  end.

(** The loop of [polygon_to_pixel_coords], appending to [pixel_coords]. *)
Fixpoint project_ring (exterior_coords : list (Q * Q)) (transform : Affine.t)
    (transformer : option Transformer) (pixel_coords : list (Z * Z))
    : result (list (Z * Z)) :=
  match exterior_coords with
  | [] => Ok pixel_coords
  | (lon, lat) :: rest =>
      ' (col, row) <- geographic_to_pixel lon lat transform transformer ;;
      project_ring rest transform transformer (pixel_coords ++ [(col, row)])
  end.

(** [GeoTiffToCoco.polygon_to_pixel_coords] *)
Definition polygon_to_pixel_coords (polygon : parsed) (transform : Affine.t)
    (transformer : option Transformer) : result (list (Z * Z)) :=
  exterior_coords <- exterior_coords_of polygon ;;
  project_ring exterior_coords transform transformer [].

(** ** Geometry metrics *)

(** [GeoTiffToCoco.get_bbox_from_coords] *)
Definition get_bbox_from_coords (coords : list (Z * Z)) : result (list Z) :=
  match coords with
  | [] => Raise ValueError
  | (x0, y0) :: rest =>
      let x_min := np_min x0 (map fst rest) in
      let y_min := np_min y0 (map snd rest) in
      let x_max := np_max x0 (map fst rest) in
      let y_max := np_max y0 (map snd rest) in
      let width := x_max - x_min in
      let height := y_max - y_min in
      Ok [x_min; y_min; width; height]
  end.

(** [GeoTiffToCoco.get_segmentation_from_coords] *)
Definition get_segmentation_from_coords (coords : list (Z * Z)) : list (list Z) :=
  let segmentation :=
    fold_left (fun seg coord => seg ++ [fst coord; snd coord]) coords [] in
  [segmentation].

(** One term of the sum in [calculate_area]. *)
Definition shoelace_term (x y : list Z) (i : Z) : result Z :=
  xi <- py_index x i ;;
  yi1 <- py_index y (i + 1) ;;
  xi1 <- py_index x (i + 1) ;;
  yi <- py_index y i ;;
  Ok (xi * yi1 - xi1 * yi).

(** The integer under the absolute value in [calculate_area]. *)
Definition shoelace (x y : list Z) : result Z :=
  py_sum (shoelace_term x y) (range (-1) (Z.of_nat (List.length x) - 1)) 0.

(** [GeoTiffToCoco.calculate_area] *)
Definition calculate_area (coords : list (Z * Z)) : result Q :=
  match coords with
  | [] => Raise IndexError
  | _ :: _ =>
      let x := map fst coords in
      let y := map snd coords in
      twice <- shoelace x y ;;
      Ok ((1 # 2) * inject_Z (Z.abs twice))%Q
  end.

(** ** Spatial filter *)

(** [x > y] on floats. *)
Definition Qgt_bool (x y : Q) : bool := negb (Qle_bool x y).

(** The two clipping assignments of [filter_valid_polygons_for_image]:
    column 0 into [0, width], then column 1 into [0, height]. *)
Definition clip_coords (coords_array : list (Z * Z)) (width height : Z)
    : list (Z * Z) :=
  let clipped_x := map (fun p => (np_clip (fst p) 0 width, snd p)) coords_array in
  map (fun p => (fst p, np_clip (snd p) 0 height)) clipped_x.

(** The rejection test on the projected ring whose first vertex is
    [(x0, y0)]. *)
Definition outside_image (x0 y0 : Z) (rest : list (Z * Z)) (width height : Z)
    : bool :=
  (np_max x0 (map fst rest) <? 0) || (np_min x0 (map fst rest) >? width) ||
  (np_max y0 (map snd rest) <? 0) || (np_min y0 (map snd rest) >? height).

(** The ring shapely builds for the image rectangle. *)
Definition image_poly (image_bounds : Bounds.t) : BaseGeometry :=
  let lb := (Bounds.left image_bounds, Bounds.bottom image_bounds) in
  Polygon [ lb;
            (Bounds.right image_bounds, Bounds.bottom image_bounds);
            (Bounds.right image_bounds, Bounds.top image_bounds);
            (Bounds.left image_bounds, Bounds.top image_bounds);
            lb ] [].

(** ** The collaborators

    What the class calls into but does not define: shapely, pyproj,
    rasterio, PIL, os.path, and the two inputs read from disk. *)
Module Env.
Record t : Type := {
  (** shapely: [g.intersects(h)] *)
  intersects : BaseGeometry -> BaseGeometry -> bool;
  (** shapely: [loads(wkt)]; [None] when the reader raises *)
  loads : string -> option BaseGeometry;
  (** pyproj: [Transformer.from_crs("EPSG:4326", crs, always_xy=True)] *)
  from_crs : CRS.t -> Transformer;
  (** rasterio: [rasterio.open(path)]; [None] when opening raises *)
  rasterio_open : string -> option Raster.t;
  (** [os.path.basename] *)
  basename : string -> string;
  (** [name.lower().endswith(('.tif', '.tiff'))] *)
  is_tiff : string -> bool;
  (** [convert_tiff_to_jpg(path, quality)]: the path written, or [None] *)
  tiff_to_jpg : string -> option string;
  (** [sorted(image_files)] after the directory scan of [load_images] *)
  image_files : list string;
  (** [pd.read_csv(self.csv_path)] *)
  read_csv : Csv.t }.
End Env.

Section Pipeline.

Variable env : Env.t.

(** [GeoTiffToCoco.setup_coordinate_transformer] *)
Definition setup_coordinate_transformer (source_crs : option CRS.t)
    : result (option Transformer) :=
  match source_crs with
  | None => Raise AttributeError
  | Some crs =>
      let is_4326 := match CRS.to_epsg crs with
                     | Some code => code =? 4326
                     | None => false
                     end in
      if negb is_4326 then Ok (Some (Env.from_crs env crs)) else Ok None
  end.

(** [GeoTiffToCoco.polygon_intersects_image] *)
Definition polygon_intersects_image (polygon : parsed)
    (image_bounds : Bounds.t) : result bool :=
  match polygon with
  | PGeom g => Ok (Env.intersects env g (image_poly image_bounds))
  | PMissing => Raise AttributeError
  end.

(** One iteration of the loop of [filter_valid_polygons_for_image]:
    [None] stands for [continue] and for a polygon below the area
    threshold. *)
Definition filter_row (self : Self.t) (image_info : ImageInfo.t)
    (transformer : option Transformer) (idx : Z) (row : TableRow.t)
    : result (option ValidPolygon.t) :=
  let polygon := TableRow.geometry row in
  hit <- polygon_intersects_image polygon (ImageInfo.bounds image_info) ;;
  if negb hit then Ok None else
  pixel_coords <- polygon_to_pixel_coords polygon
                    (ImageInfo.transform image_info) transformer ;;
  match pixel_coords with
  | [] => Raise IndexError
  | (x0, y0) :: rest =>
      if outside_image x0 y0 rest (ImageInfo.width image_info)
           (ImageInfo.height image_info)
      then Ok None else
      let coords_array :=
        clip_coords pixel_coords (ImageInfo.width image_info)
          (ImageInfo.height image_info) in
      area <- calculate_area coords_array ;;
      if Qgt_bool area (Self.min_area self) then
        Ok (Some {| ValidPolygon.building := TableRow.building row;
                    ValidPolygon.coords := coords_array;
                    ValidPolygon.original_idx := idx |})
      else Ok None
  end.

Fixpoint filter_rows (self : Self.t) (image_info : ImageInfo.t)
    (transformer : option Transformer) (rows : list (Z * TableRow.t))
    (valid_polygons : list ValidPolygon.t) : result (list ValidPolygon.t) :=
  match rows with
  | [] => Ok valid_polygons
  | (idx, row) :: rest =>
      kept <- filter_row self image_info transformer idx row ;;
      filter_rows self image_info transformer rest
        match kept with
        | Some entry => valid_polygons ++ [entry]
        | None => valid_polygons
        end
  end.

(** [GeoTiffToCoco.filter_valid_polygons_for_image] *)
Definition filter_valid_polygons_for_image (self : Self.t)
    (image_info : ImageInfo.t) : result (list ValidPolygon.t) :=
  transformer <- setup_coordinate_transformer (ImageInfo.crs image_info) ;;
  filter_rows self image_info transformer (enumerate (Self.df self)) [].

(** ** Loading *)

(** The loop of [load_images] over [enumerate(self.image_files)]: a file
    that fails to open is reported and skipped. *)
Fixpoint load_images_loop (files : list (Z * string))
    (images_info : list ImageInfo.t) (coco_images : list CocoImage.t)
    : list ImageInfo.t * list CocoImage.t :=
  match files with
  | [] => (images_info, coco_images)
  | (idx, image_path) :: rest =>
      match Env.rasterio_open env image_path with
      | Some src =>
          let image_info :=
            {| ImageInfo.id := idx + 1;
               ImageInfo.path := image_path;
               ImageInfo.filename := Env.basename env image_path;
               ImageInfo.width := Raster.width src;
               ImageInfo.height := Raster.height src;
               ImageInfo.crs := Raster.crs src;
               ImageInfo.transform := Raster.transform src;
               ImageInfo.bounds := Raster.bounds src |} in
          let coco_image_info :=
            {| CocoImage.id := idx + 1;
               CocoImage.width := Raster.width src;
               CocoImage.height := Raster.height src;
               CocoImage.file_name := Env.basename env image_path;
               CocoImage.license := 1 |} in
          load_images_loop rest (images_info ++ [image_info])
            (coco_images ++ [coco_image_info])
      | None => load_images_loop rest images_info coco_images
      end
  end.

(** [GeoTiffToCoco.load_images] *)
Definition load_images (self : Self.t) : Self.t :=
  let '(images_info, coco_images) :=
    load_images_loop (enumerate (Env.image_files env)) []
      (Coco.images (Self.coco_format self)) in
  {| Self.min_area := Self.min_area self;
     Self.images_info := images_info;
     Self.df := Self.df self;
     Self.categories := Self.categories self;
     Self.annotation_mapping := Self.annotation_mapping self;
     Self.coco_format :=
       {| Coco.images := coco_images;
          Coco.annotations := Coco.annotations (Self.coco_format self);
          Coco.categories := Coco.categories (Self.coco_format self) |} |}.

(** Line 97: [Series.apply] of the WKT reader, row after row; the first
    string the reader rejects raises out of [apply]. *)
Fixpoint parse_geometry (rows : list RawRow.t) : result (list TableRow.t) :=
  match rows with
  | [] => Ok []
  | r :: rest =>
      geom <- match RawRow.geometry r with
              | CStr wkt =>
                  match Env.loads env wkt with
                  | Some g => Ok (PGeom g)
                  | None => Raise WKTReadingError
                  end
              | CMissing => Ok PMissing
              end ;;
      parsed_rest <- parse_geometry rest ;;
      Ok ({| TableRow.building := RawRow.building r; TableRow.geometry := geom |}
          :: parsed_rest)
  end.

(** Line 100: [geom is not None and hasattr(geom, 'exterior')] *)
Definition valid_mask (row : TableRow.t) : bool :=
  match TableRow.geometry row with
  | PGeom (Polygon _ _) => true
  | _ => false
  end.

(** Line 105: the dict comprehension over [enumerate(unique_types)]. *)
Definition make_categories (unique_types : list string) : dict Z :=
  fold_left (fun cats entry => dict_set (snd entry) (fst entry + 1) cats)
    (enumerate unique_types) [].

(** Lines 108-114: one COCO category per item of [self.categories]. *)
Definition category_infos (categories : dict Z) : list Category.t :=
  map (fun item => {| Category.id := snd item;
                      Category.name := fst item;
                      Category.supercategory := "building" |}) categories.

Definition has_column (name : string) (columns : list string) : bool :=
  existsb (String.eqb name) columns.

(** [GeoTiffToCoco.load_csv] *)
Definition load_csv (self : Self.t) : result Self.t :=
  let table := Env.read_csv env in
  if negb (has_column "building" (Csv.columns table))
     || negb (has_column "geometry" (Csv.columns table))
  then Raise ValueError else
  parsed_rows <- parse_geometry (Csv.rows table) ;;
  let df := filter valid_mask parsed_rows in
  let unique_types := unique (map TableRow.building df) in
  let categories := make_categories unique_types in
  Ok {| Self.min_area := Self.min_area self;
        Self.images_info := Self.images_info self;
        Self.df := df;
        Self.categories := categories;
        Self.annotation_mapping := Self.annotation_mapping self;
        Self.coco_format :=
          {| Coco.images := Coco.images (Self.coco_format self);
             Coco.annotations := Coco.annotations (Self.coco_format self);
             Coco.categories :=
               Coco.categories (Self.coco_format self)
               ++ category_infos categories |} |}.

(** ** Annotation assembler *)

(** Lines 336-348: the two [append]s of one loop iteration. *)
Definition append_annotation (self : Self.t) (annotation : Annotation.t)
    (mapping : Mapping.t) : Self.t :=
  {| Self.min_area := Self.min_area self;
     Self.images_info := Self.images_info self;
     Self.df := Self.df self;
     Self.categories := Self.categories self;
     Self.annotation_mapping := Self.annotation_mapping self ++ [mapping];
     Self.coco_format :=
       {| Coco.images := Coco.images (Self.coco_format self);
          Coco.annotations :=
            Coco.annotations (Self.coco_format self) ++ [annotation];
          Coco.categories := Coco.categories (Self.coco_format self) |} |}.

(** Lines 318-350: the loop over [valid_polygons] of one image; the state
    is the object and the local counter [annotation_id]. *)
Fixpoint annotate_polygons (self : Self.t) (image_info : ImageInfo.t)
    (valid_polygons : list ValidPolygon.t) (annotation_id : Z)
    : result (Self.t * Z) :=
  match valid_polygons with
  | [] => Ok (self, annotation_id)
  | polygon_data :: rest =>
      let coords := ValidPolygon.coords polygon_data in
      let building_type := ValidPolygon.building polygon_data in
      bbox <- get_bbox_from_coords coords ;;
      let segmentation := get_segmentation_from_coords coords in
      area <- calculate_area coords ;;
      category_id <- dict_get building_type (Self.categories self) ;;
      let annotation :=
        {| Annotation.id := annotation_id;
           Annotation.image_id := ImageInfo.id image_info;
           Annotation.category_id := category_id;
           Annotation.segmentation := segmentation;
           Annotation.area := area;
           Annotation.bbox := bbox;
           Annotation.iscrowd := 0 |} in
      let mapping :=
        {| Mapping.annotation_id := annotation_id;
           Mapping.image_id := ImageInfo.id image_info;
           Mapping.image_filename := ImageInfo.filename image_info;
           Mapping.polygon_csv_idx := ValidPolygon.original_idx polygon_data;
           Mapping.category_name := building_type;
           Mapping.category_id := category_id;
           Mapping.bbox := bbox;
           Mapping.area := area |} in
      annotate_polygons (append_annotation self annotation mapping)
        image_info rest (annotation_id + 1)
  end.

(** Lines 309-350: the loop over [self.images_info]. *)
Fixpoint process_images (self : Self.t) (images : list ImageInfo.t)
    (annotation_id : Z) : result (Self.t * Z) :=
  match images with
  | [] => Ok (self, annotation_id)
  | image_info :: rest =>
      valid_polygons <- filter_valid_polygons_for_image self image_info ;;
      ' (self', annotation_id') <-
        annotate_polygons self image_info valid_polygons annotation_id ;;
      process_images self' rest annotation_id'
  end.

(** ** TIFF conversion: only file names and paths change *)

(** Lines 260-264: the path of the first loaded image with that file name. *)
Fixpoint find_full_path (file_name : string) (images_info : list ImageInfo.t)
    : option string :=
  match images_info with
  | [] => None
  | img_info :: rest =>
      if String.eqb (ImageInfo.filename img_info) file_name
      then Some (ImageInfo.path img_info)
      else find_full_path file_name rest
  end.

(** Lines 277-281: rename the first loaded image with that path. *)
Fixpoint rename_image_info (full_path jpg_path new_filename : string)
    (images_info : list ImageInfo.t) : list ImageInfo.t :=
  match images_info with
  | [] => []
  | img_info :: rest =>
      if String.eqb (ImageInfo.path img_info) full_path
      then {| ImageInfo.id := ImageInfo.id img_info;
              ImageInfo.path := jpg_path;
              ImageInfo.filename := new_filename;
              ImageInfo.width := ImageInfo.width img_info;
              ImageInfo.height := ImageInfo.height img_info;
              ImageInfo.crs := ImageInfo.crs img_info;
              ImageInfo.transform := ImageInfo.transform img_info;
              ImageInfo.bounds := ImageInfo.bounds img_info |} :: rest
      else img_info :: rename_image_info full_path jpg_path new_filename rest
  end.

(** A Python string used as a condition. *)
Definition truthy (s : string) : bool :=
  match s with
  | EmptyString => false
  | _ => true
  end.

(** Lines 254-281: the loop over [self.coco_format["images"]]; [done] are
    the entries already visited. *)
Fixpoint convert_loop (todo done : list CocoImage.t)
    (images_info : list ImageInfo.t)
    : list CocoImage.t * list ImageInfo.t :=
  match todo with
  | [] => (done, images_info)
  | image_info :: rest =>
      let file_name := CocoImage.file_name image_info in
      let skip := convert_loop rest (done ++ [image_info]) images_info in
      if Env.is_tiff env file_name then
        match find_full_path file_name images_info with
        | Some full_path =>
            if truthy full_path then
              match Env.tiff_to_jpg env full_path with
              | Some jpg_path =>
                  if truthy jpg_path then
                    let new_filename := Env.basename env jpg_path in
                    let renamed :=
                      {| CocoImage.id := CocoImage.id image_info;
                         CocoImage.width := CocoImage.width image_info;
                         CocoImage.height := CocoImage.height image_info;
                         CocoImage.file_name := new_filename;
                         CocoImage.license := CocoImage.license image_info |} in
                    convert_loop rest (done ++ [renamed])
                      (rename_image_info full_path jpg_path new_filename
                         images_info)
                  else skip
              | None => skip
              end
            else skip
        | None => skip
        end
      else skip
  end.

(** [GeoTiffToCoco.convert_all_tiff_to_jpg], without the deletion of the
    original files. *)
Definition convert_all_tiff_to_jpg (self : Self.t) : Self.t :=
  let '(coco_images, images_info) :=
    convert_loop (Coco.images (Self.coco_format self)) []
      (Self.images_info self) in
  {| Self.min_area := Self.min_area self;
     Self.images_info := images_info;
     Self.df := Self.df self;
     Self.categories := Self.categories self;
     Self.annotation_mapping := Self.annotation_mapping self;
     Self.coco_format :=
       {| Coco.images := coco_images;
          Coco.annotations := Coco.annotations (Self.coco_format self);
          Coco.categories := Coco.categories (Self.coco_format self) |} |}.

(** ** Dataset builder *)

(** [GeoTiffToCoco.create_coco_dataset]: the value returned and the object
    state left behind.  Writing the two JSON files and the validation
    report do not change either. *)
Definition create_coco_dataset (self : Self.t) (convert_tiff : bool)
    : result (Coco.t * Self.t) :=
  let self := load_images self in
  self <- load_csv self ;;
  let annotation_id := 1 in
  ' (self, _) <- process_images self (Self.images_info self) annotation_id ;;
  let self := if convert_tiff then convert_all_tiff_to_jpg self else self in
  Ok (Self.coco_format self, self).

End Pipeline.

(** ** The projector as the specification words it

    "col = floor((x - c) / a), row = floor((y - f) / e)", to be compared
    with [geographic_to_pixel]. *)
Definition floor_projection (lon lat : Q) (transform : Affine.t)
    (transformer : option Transformer) : Z * Z :=
  let '(x, y) := reproject transformer lon lat in
  (Qfloor ((x - Affine.c transform) / Affine.a transform),
   Qfloor ((y - Affine.f transform) / Affine.e transform)).

(** A pixel vertex in the image rectangle [0, width] x [0, height], and
    a ring flattened to [x1, y1, x2, y2, ...]. *)
Definition in_image (width height : Z) (p : Z * Z) : Prop :=
  0 <= fst p <= width /\ 0 <= snd p <= height.

Definition flatten_ring (coords : list (Z * Z)) : list Z :=
  flat_map (fun p => [fst p; snd p]) coords.

(** ** Concrete collaborators and scenes

    Stand-ins on which the model can be run.  [envelope_intersects]
    compares bounding envelopes, which is shapely's answer whenever the
    second polygon is an axis-parallel rectangle containing the first's
    envelope, as in every scene below. *)

Definition envelope (ring : list (Q * Q)) : option (Q * Q * Q * Q) :=
  match ring with
  | [] => None
  | (x0, y0) :: rest =>
      Some (fold_left Qmin (map fst rest) x0, fold_left Qmin (map snd rest) y0,
            fold_left Qmax (map fst rest) x0, fold_left Qmax (map snd rest) y0)
  end.

Definition envelope_intersects (g h : BaseGeometry) : bool :=
  match g, h with
  | Polygon eg _, Polygon eh _ =>
      match envelope eg, envelope eh with
      | Some (gx0, gy0, gx1, gy1), Some (hx0, hy0, hx1, hy1) =>
          Qle_bool gx0 hx1 && Qle_bool hx0 gx1
          && Qle_bool gy0 hy1 && Qle_bool hy0 gy1
      | _, _ => false
      end
  | _, _ => false
  end.

Fixpoint assoc {V : Type} (k : string) (l : list (string * V)) : option V :=
  match l with
  | [] => None
  | (k', v) :: rest => if String.eqb k k' then Some v else assoc k rest
  end.

(** The ring of the specification's scenario, as written and as shapely
    holds it (closed). *)
Definition house_ring : list (Q * Q) :=
  [(10, 630); (20, 630); (20, 620); (10, 620)]%Q.
Definition house_ring_closed : list (Q * Q) := house_ring ++ [(10, 630)%Q].

Definition courtyard_ring : list (Q * Q) :=
  [(12, 628); (18, 628); (18, 622); (12, 622); (12, 628)]%Q.

Definition house_wkt : string :=
  "POLYGON ((10 630, 20 630, 20 620, 10 620, 10 630))".
Definition courtyard_wkt : string :=
  "POLYGON ((10 630, 20 630, 20 620, 10 620, 10 630), (12 628, 18 628, 18 622, 12 622, 12 628))".
Definition empty_wkt : string := "POLYGON EMPTY".
Definition broken_wkt : string := "POLYGON ((10 630, 20".

(** What shapely's reader returns on the strings above; it raises on
    [broken_wkt]. *)
Definition scene_loads (wkt : string) : option BaseGeometry :=
  assoc wkt [ (house_wkt, Polygon house_ring_closed []);
              (courtyard_wkt, Polygon house_ring_closed [courtyard_ring]);
              (empty_wkt, Polygon [] []) ].

Definition tile_transform : Affine.t :=
  {| Affine.a := 1; Affine.b := 0; Affine.c := 0;
     Affine.d := 0; Affine.e := -1; Affine.f := 640 |}.

Definition tile_raster : Raster.t :=
  {| Raster.width := 640;
     Raster.height := 640;
     Raster.crs := Some {| CRS.to_epsg := Some 4326 |};
     Raster.transform := tile_transform;
     Raster.bounds := {| Bounds.left := 0; Bounds.bottom := 0;
                         Bounds.right := 640; Bounds.top := 640 |} |}.

Definition building_row (label wkt : string) : RawRow.t :=
  {| RawRow.building := label; RawRow.geometry := CStr wkt |}.

(** A folder with the given tile files, all like [tile_raster], and a
    polygon table with the given rows. *)
Definition scene (files : list string) (rows : list RawRow.t) : Env.t :=
  {| Env.intersects := envelope_intersects;
     Env.loads := scene_loads;
     Env.from_crs := fun _ lon lat => (lon, lat);
     Env.rasterio_open :=
       fun path => if existsb (String.eqb path) files then Some tile_raster
                   else None;
     Env.basename := fun path => path;
     Env.is_tiff := fun _ => true;
     Env.tiff_to_jpg :=
       fun path => assoc path [ ("tile.tif", "tile.jpg");
                                ("east.tif", "east.jpg");
                                ("west.tif", "west.jpg") ]%string;
     Env.image_files := files;
     Env.read_csv := {| Csv.columns := ["building"; "geometry"]%string;
                        Csv.rows := rows |} |}.

Definition house_scene : Env.t :=
  scene ["tile.tif"%string] [building_row "house" house_wkt].

(** Two tiles and four rows, one of them with a missing geometry. *)
Definition village_scene : Env.t :=
  scene ["east.tif"; "west.tif"]%string
    [ building_row "house" house_wkt;
      {| RawRow.building := "shed"; RawRow.geometry := CMissing |};
      building_row "school" courtyard_wkt;
      building_row "house" courtyard_wkt ].

(** One tile and one building with a courtyard. *)
Definition courtyard_scene : Env.t :=
  scene ["tile.tif"%string] [building_row "school" courtyard_wkt].

(** One tile, and a table whose second row the reader rejects. *)
Definition broken_scene : Env.t :=
  scene ["tile.tif"%string]
    [building_row "house" house_wkt; building_row "barn" broken_wkt].

(** One tile, and a table with an empty polygon. *)
Definition empty_scene : Env.t :=
  scene ["tile.tif"%string] [building_row "plot" empty_wkt].

(** The record [load_images] makes of the tile. *)
Definition tile_info : ImageInfo.t :=
  {| ImageInfo.id := 1;
     ImageInfo.path := "tile.tif";
     ImageInfo.filename := "tile.tif";
     ImageInfo.width := 640;
     ImageInfo.height := 640;
     ImageInfo.crs := Raster.crs tile_raster;
     ImageInfo.transform := tile_transform;
     ImageInfo.bounds := Raster.bounds tile_raster |}.

(** An object whose table holds a house, an empty polygon and a building
    with a courtyard. *)
Definition three_rows_self : Self.t :=
  {| Self.min_area := 10;
     Self.images_info := [];
     Self.df := [ {| TableRow.building := "house";
                     TableRow.geometry := PGeom (Polygon house_ring_closed []) |};
                  {| TableRow.building := "plot";
                     TableRow.geometry := PGeom (Polygon [] []) |};
                  {| TableRow.building := "school";
                     TableRow.geometry :=
                       PGeom (Polygon house_ring_closed [courtyard_ring]) |} ];
     Self.categories := [];
     Self.annotation_mapping := [];
     Self.coco_format :=
       {| Coco.images := []; Coco.annotations := []; Coco.categories := [] |} |}.

(** The scenario's ring in pixels. *)
Definition house_pixels : list (Z * Z) :=
  [(10, 10); (20, 10); (20, 20); (10, 20); (10, 10)].

(** A triangle that leaves the 10 x 15 image through its far corner. *)
Definition corner_ring : list (Z * Z) := [(0, 0); (20, 10); (40, 21); (0, 0)].

(** ** The shoelace sum, by recursion on the ring

    Twice the signed area of the closed ring: the cross product of the
    last vertex with the first, then of every vertex with its successor. *)
Definition cross (p q : Z * Z) : Z := fst p * snd q - fst q * snd p.

Fixpoint cross_sum (p : Z * Z) (rest : list (Z * Z)) : Z :=
  match rest with
  | [] => 0
  | q :: rest' => cross p q + cross_sum q rest'
  end.

Definition ring_twice_area (coords : list (Z * Z)) : Z :=
  match coords with
  | [] => 0
  | p0 :: rest => cross (last coords p0) p0 + cross_sum p0 rest
  end.

(** ** Predicates of the verification *)

(** The fields of the object that the assembling loops leave alone. *)
Definition same_tables (s s' : Self.t) : Prop :=
  Self.min_area s' = Self.min_area s /\
  Self.images_info s' = Self.images_info s /\
  Self.df s' = Self.df s /\
  Self.categories s' = Self.categories s /\
  Coco.images (Self.coco_format s') = Coco.images (Self.coco_format s) /\
  Coco.categories (Self.coco_format s') = Coco.categories (Self.coco_format s).

(** [polygon_data] passed the spatial filter of [image_info]: its ring is
    a non-empty projected ring clamped into the image, of area above the
    threshold. *)
Definition survives (min_area : Q) (image_info : ImageInfo.t)
    (polygon_data : ValidPolygon.t) : Prop :=
  exists ring area,
    ring <> [] /\
    ValidPolygon.coords polygon_data
    = clip_coords ring (ImageInfo.width image_info) (ImageInfo.height image_info) /\
    calculate_area (ValidPolygon.coords polygon_data) = Ok area /\
    (min_area < area)%Q.

(** [annotation] is what the assembler builds from [polygon_data] on
    [image_info], whatever its identifier. *)
Definition assembled (categories : dict Z) (image_info : ImageInfo.t)
    (polygon_data : ValidPolygon.t) (annotation : Annotation.t) : Prop :=
  Annotation.image_id annotation = ImageInfo.id image_info /\
  get_bbox_from_coords (ValidPolygon.coords polygon_data)
  = Ok (Annotation.bbox annotation) /\
  calculate_area (ValidPolygon.coords polygon_data)
  = Ok (Annotation.area annotation) /\
  dict_get (ValidPolygon.building polygon_data) categories
  = Ok (Annotation.category_id annotation) /\
  Annotation.segmentation annotation
  = get_segmentation_from_coords (ValidPolygon.coords polygon_data).

(** Identifier and size of an image, in its two records. *)
Definition info_dims (i : ImageInfo.t) : Z * Z * Z :=
  (ImageInfo.id i, ImageInfo.width i, ImageInfo.height i).
Definition image_dims (i : CocoImage.t) : Z * Z * Z :=
  (CocoImage.id i, CocoImage.width i, CocoImage.height i).

(** An image record made by [load_images] from a raster that opened. *)
Definition opened (env : Env.t) (image_info : ImageInfo.t) : Prop :=
  exists path src,
    Env.rasterio_open env path = Some src /\
    ImageInfo.width image_info = Raster.width src /\
    ImageInfo.height image_info = Raster.height src /\
    ImageInfo.crs image_info = Raster.crs src /\
    ImageInfo.transform image_info = Raster.transform src.

(** Every raster of the folder has a non-negative size. *)
Definition sized_rasters (env : Env.t) : Prop :=
  forall path src,
    Env.rasterio_open env path = Some src ->
    0 <= Raster.width src /\ 0 <= Raster.height src.

(** Inputs on which no step of the run raises: the table has its two
    columns and every geometry string is read; every raster that opens has
    a CRS and non-zero pixel scales; and shapely reports no intersection
    for a polygon without vertices. *)
Definition well_formed_inputs (env : Env.t) : Prop :=
  has_column "building" (Csv.columns (Env.read_csv env)) = true /\
  has_column "geometry" (Csv.columns (Env.read_csv env)) = true /\
  (forall row wkt,
      In row (Csv.rows (Env.read_csv env)) ->
      RawRow.geometry row = CStr wkt -> Env.loads env wkt <> None) /\
  (forall path src,
      Env.rasterio_open env path = Some src ->
      Raster.crs src <> None /\
      ~ (Affine.a (Raster.transform src) == 0)%Q /\
      ~ (Affine.e (Raster.transform src) == 0)%Q) /\
  (forall exterior interiors other,
      Env.intersects env (Polygon exterior interiors) other = true ->
      exterior <> []).

(** A box [x_min, y_min, w, h] inside an image. *)
Definition bbox_in_image (width height : Z) (bbox : list Z) : Prop :=
  exists x_min y_min w h,
    bbox = [x_min; y_min; w; h] /\
    0 <= x_min /\ 0 <= y_min /\ 0 <= w /\ 0 <= h /\
    x_min + w <= width /\ y_min + h <= height.

(** ** Vocabulary of the further properties *)

(** The sum of the cross products of consecutive vertices of an open
    chain. *)
Definition chain (coords : list (Z * Z)) : Z :=
  match coords with
  | [] => 0
  | p :: rest => cross_sum p rest
  end.

(** The vertices of a flat ring [x1, y1, x2, y2, ...], read back. *)
Fixpoint unflatten (flat : list Z) : list (Z * Z) :=
  match flat with
  | x :: y :: rest => (x, y) :: unflatten rest
  | _ => []
  end.

(** A vertex pushed onto the image [0, width] x [0, height], axis by
    axis. *)
Definition clamp_vertex (width height : Z) (p : Z * Z) : Z * Z :=
  (np_clip (fst p) 0 width, np_clip (snd p) 0 height).

(** The COCO entry that [load_images] writes beside an image record. *)
Definition coco_image_of (image_info : ImageInfo.t) : CocoImage.t :=
  {| CocoImage.id := ImageInfo.id image_info;
     CocoImage.width := ImageInfo.width image_info;
     CocoImage.height := ImageInfo.height image_info;
     CocoImage.file_name := ImageInfo.filename image_info;
     CocoImage.license := 1 |}.

(** The image record of the file at position [idx] of the folder scan,
    when rasterio opens it as [src]. *)
Definition image_info_of (env : Env.t) (idx : Z) (image_path : string)
    (src : Raster.t) : ImageInfo.t :=
  {| ImageInfo.id := idx + 1;
     ImageInfo.path := image_path;
     ImageInfo.filename := Env.basename env image_path;
     ImageInfo.width := Raster.width src;
     ImageInfo.height := Raster.height src;
     ImageInfo.crs := Raster.crs src;
     ImageInfo.transform := Raster.transform src;
     ImageInfo.bounds := Raster.bounds src |}.

(** The records of the files that open, in scan order. *)
Definition opened_infos (env : Env.t) (files : list (Z * string))
    : list ImageInfo.t :=
  flat_map (fun entry =>
              match Env.rasterio_open env (snd entry) with
              | Some src => [image_info_of env (fst entry) (snd entry) src]
              | None => []
              end) files.

(** [annotation] and [mapping] are the two records the assembler appends
    for [polygon_data] on [image_info]. *)
Definition recorded (categories : dict Z) (image_info : ImageInfo.t)
    (polygon_data : ValidPolygon.t) (annotation : Annotation.t)
    (mapping : Mapping.t) : Prop :=
  assembled categories image_info polygon_data annotation /\
  Annotation.iscrowd annotation = 0 /\
  Mapping.annotation_id mapping = Annotation.id annotation /\
  Mapping.image_id mapping = ImageInfo.id image_info /\
  Mapping.image_filename mapping = ImageInfo.filename image_info /\
  Mapping.polygon_csv_idx mapping = ValidPolygon.original_idx polygon_data /\
  Mapping.category_name mapping = ValidPolygon.building polygon_data /\
  Mapping.category_id mapping = Annotation.category_id annotation /\
  Mapping.bbox mapping = Annotation.bbox annotation /\
  Mapping.area mapping = Annotation.area annotation.

(** The (tile, row) key of a mapping record, and the order "earlier tile,
    or same tile and earlier row". *)
Definition mapping_key (mapping : Mapping.t) : Z * Z :=
  (Mapping.image_id mapping, Mapping.polygon_csv_idx mapping).

Definition pair_lt (p q : Z * Z) : Prop :=
  fst p < fst q \/ (fst p = fst q /\ snd p < snd q).


(** ** The JPEG path of [convert_tiff_to_jpg]

    Line 230: [tiff_path.rsplit('.', 1)[0] + '.jpg']. *)

(** [s.rsplit('.', 1)] when [s] holds a dot: what stands before the last
    dot and what stands after it. *)
Fixpoint rsplit_dot (s : string) : option (string * string) :=
  match s with
  | EmptyString => None
  | String ch rest =>
      match rsplit_dot rest with
      | Some (before, after) => Some (String ch before, after)
      | None => if Ascii.eqb ch "."%char then Some (EmptyString, rest) else None
      end
  end.

(** [s.rsplit('.', 1)[0]]: the whole string when it holds no dot. *)
Definition rsplit_dot_head (s : string) : string :=
  match rsplit_dot s with
  | Some (before, _) => before
  | None => s
  end.

Definition jpg_path_of (tiff_path : string) : string :=
  (rsplit_dot_head tiff_path ++ ".jpg")%string.

(** [GeoTiffToCoco.convert_tiff_to_jpg]: [pil_save tiff_path jpg_path]
    tells whether PIL opened, converted and saved the image; when it
    raised, the function reports and returns [None]. *)
Definition convert_tiff_to_jpg (pil_save : string -> string -> bool)
    (tiff_path : string) : option string :=
  let jpg_path := jpg_path_of tiff_path in
  if pil_save tiff_path jpg_path then Some jpg_path else None.

Fixpoint has_dot (s : string) : bool :=
  match s with
  | EmptyString => false
  | String ch rest => Ascii.eqb ch "."%char || has_dot rest
  end.

(** What the conversion may do to one entry of [coco_format["images"]]:
    nothing, or give a TIFF entry the base name of a converted file. *)
Definition converted_entry (env : Env.t) (before after : CocoImage.t) : Prop :=
  CocoImage.id after = CocoImage.id before /\
  CocoImage.width after = CocoImage.width before /\
  CocoImage.height after = CocoImage.height before /\
  CocoImage.license after = CocoImage.license before /\
  (CocoImage.file_name after = CocoImage.file_name before \/
   (Env.is_tiff env (CocoImage.file_name before) = true /\
    exists full_path jpg_path,
      Env.tiff_to_jpg env full_path = Some jpg_path /\
      CocoImage.file_name after = Env.basename env jpg_path)).

(** A vertex moved by [(dx, dy)]. *)
Definition shift (dx dy : Z) (p : Z * Z) : Z * Z := (fst p + dx, snd p + dy).

(** * Verification *)

(** ** The error monad *)

Lemma bind_Ok_inv {A B : Type} (m : result A) (k : A -> result B) (w : B) :
  bind m k = Ok w -> exists v, m = Ok v /\ k v = Ok w.
Proof.
  destruct m as [v|err]; simpl; intros H; [exists v; auto | discriminate].
Qed.

Ltac inv_bind H :=
  let v := fresh "v" in
  let Hv := fresh "Hv" in
  apply bind_Ok_inv in H; destruct H as (v & Hv & H).

(** ** Coordinate projector *)

Lemma py_int_nonneg (q : Q) : (0 <= q)%Q -> py_int q = Qfloor q.
Proof.
  destruct q as [n d]. unfold Qle, py_int, Qfloor. simpl. intros H.
  apply Z.quot_div_nonneg; lia.
Qed.

Lemma py_int_nonpos (q : Q) : (q <= 0)%Q -> py_int q = Qceiling q.
Proof.
  destruct q as [n d]. unfold Qle, py_int, Qceiling, Qfloor. simpl. intros H.
  rewrite <- (Z.opp_involutive n) at 1.
  rewrite Z.quot_opp_l by lia.
  rewrite Z.quot_div_nonneg by lia. reflexivity.
Qed.

Lemma true_div_Ok (x y : Q) : ~ (y == 0)%Q -> true_div x y = Ok (x / y)%Q.
Proof.
  intros H. unfold true_div.
  destruct (Qeq_bool y 0) eqn:E; [|reflexivity].
  apply Qeq_bool_eq in E. contradiction.
Qed.


(** C1, as the code has it: for non-zero pixel scales [a] and [e] the
    projector returns the two quotients [(x - c) / a] and [(y - f) / e]
    truncated toward zero, which is their floor when the quotient is not
    negative and their ceiling when it is not positive. *)
Theorem geographic_to_pixel_truncates (lon lat : Q) (transform : Affine.t)
    (transformer : option Transformer) :
  ~ (Affine.a transform == 0)%Q ->
  ~ (Affine.e transform == 0)%Q ->
  let x := fst (reproject transformer lon lat) in
  let y := snd (reproject transformer lon lat) in
  let qc := ((x - Affine.c transform) / Affine.a transform)%Q in
  let qr := ((y - Affine.f transform) / Affine.e transform)%Q in
  exists col row,
    geographic_to_pixel lon lat transform transformer = Ok (col, row) /\
    ((0 <= qc)%Q -> col = Qfloor qc) /\ ((qc <= 0)%Q -> col = Qceiling qc) /\
    ((0 <= qr)%Q -> row = Qfloor qr) /\ ((qr <= 0)%Q -> row = Qceiling qr).
Proof.
  intros Ha He x y qc qr. exists (py_int qc), (py_int qr).
  split.
  - unfold geographic_to_pixel. subst x y qc qr.
    destruct (reproject transformer lon lat) as [x y]. simpl.
    rewrite (true_div_Ok _ _ Ha). simpl.
    rewrite (true_div_Ok _ _ He). reflexivity.
  - repeat split; intros H;
      first [ apply py_int_nonneg; exact H | apply py_int_nonpos; exact H ].
Qed.

Lemma geographic_to_pixel_truncates_witness :
  ~ (Affine.a tile_transform == 0)%Q /\
  ~ (Affine.e tile_transform == 0)%Q /\
  exists col row,
    geographic_to_pixel 10 (1281 # 2) tile_transform None = Ok (col, row) /\
    col = 10 /\ row = 0.
Proof.
  split; [intros H; vm_compute in H; discriminate|].
  split; [intros H; vm_compute in H; discriminate|].
  destruct (geographic_to_pixel_truncates 10 (1281 # 2) tile_transform None)
    as (col & row & Hrun & Hc & _ & _ & Hr).
  - intros H; vm_compute in H; discriminate.
  - intros H; vm_compute in H; discriminate.
  - exists col, row. split; [exact Hrun|]. split.
    + rewrite Hc; [reflexivity | vm_compute; discriminate].
    + rewrite Hr; [reflexivity | vm_compute; discriminate].
Defined.

(** C1, as the specification words it, fails: a vertex half a pixel above
    the top edge of the scenario tile has quotient -1/2, whose floor is -1,
    and the projector returns row 0. *)
Lemma geographic_to_pixel_not_floor :
  geographic_to_pixel 10 (1281 # 2) tile_transform None = Ok (10, 0) /\
  floor_projection 10 (1281 # 2) tile_transform None = (10, -1) /\
  geographic_to_pixel 10 (1281 # 2) tile_transform None
    <> Ok (floor_projection 10 (1281 # 2) tile_transform None).
Proof.
  repeat split; try reflexivity. vm_compute. discriminate.
Qed.

(** ** Clipping and area *)

Lemma np_clip_inside (v lo hi : Z) : lo <= v <= hi -> np_clip v lo hi = v.
Proof. unfold np_clip. lia. Qed.

Lemma np_clip_range (v lo hi : Z) : lo <= hi -> lo <= np_clip v lo hi <= hi.
Proof. unfold np_clip. lia. Qed.

Lemma clip_coords_map (ring : list (Z * Z)) (width height : Z) :
  clip_coords ring width height
  = map (fun p => (np_clip (fst p) 0 width, np_clip (snd p) 0 height)) ring.
Proof. unfold clip_coords. rewrite map_map. reflexivity. Qed.

Lemma clip_coords_inside (ring : list (Z * Z)) (width height : Z) :
  Forall (in_image width height) ring -> clip_coords ring width height = ring.
Proof.
  intros H. rewrite clip_coords_map.
  induction H as [|[x y] ring [Hx Hy] _ IH]; simpl; [reflexivity|].
  simpl in Hx, Hy.
  rewrite IH, (np_clip_inside x), (np_clip_inside y) by assumption.
  reflexivity.
Qed.

Lemma clip_coords_in_image (ring : list (Z * Z)) (width height : Z) :
  0 <= width -> 0 <= height ->
  Forall (in_image width height) (clip_coords ring width height).
Proof.
  intros Hw Hh. rewrite clip_coords_map. apply Forall_forall.
  intros p Hp. apply in_map_iff in Hp. destruct Hp as (q & <- & _).
  split; simpl; apply np_clip_range; assumption.
Qed.

(** C5, as the code has it: clamping changes nothing, and so keeps the
    shoelace area, on a ring whose vertices all lie in
    [0, width] x [0, height]. *)
Theorem clip_keeps_area_inside (ring : list (Z * Z)) (width height : Z) :
  Forall (in_image width height) ring ->
  clip_coords ring width height = ring /\
  calculate_area (clip_coords ring width height) = calculate_area ring.
Proof.
  intros H. rewrite (clip_coords_inside _ _ _ H). split; reflexivity.
Qed.

Lemma clip_keeps_area_inside_witness :
  Forall (in_image 640 640) [(10, 10); (20, 10); (20, 20); (10, 20)] /\
  calculate_area (clip_coords [(10, 10); (20, 10); (20, 20); (10, 20)] 640 640)
  = calculate_area [(10, 10); (20, 10); (20, 20); (10, 20)].
Proof.
  assert (H : Forall (in_image 640 640) [(10, 10); (20, 10); (20, 20); (10, 20)]).
  { repeat constructor; simpl; lia. }
  split; [exact H|].
  exact (proj2 (clip_keeps_area_inside _ 640 640 H)).
Defined.

(** C5 as stated fails: [corner_ring] passes the bounds test of a 10 x 15
    image, its area is 10, and the area of the clamped ring is 25. *)
Lemma clip_can_grow_area :
  outside_image 0 0 (tl corner_ring) 10 15 = false /\
  exists clipped unclipped,
    calculate_area (clip_coords corner_ring 10 15) = Ok clipped /\
    calculate_area corner_ring = Ok unclipped /\
    (clipped == 25)%Q /\ (unclipped == 10)%Q /\
    ~ (clipped <= unclipped)%Q.
Proof.
  split; [reflexivity|].
  eexists; eexists. split; [vm_compute; reflexivity|].
  split; [vm_compute; reflexivity|].
  split; [reflexivity|]. split; [reflexivity|].
  intros H. vm_compute in H. apply H. reflexivity.
Qed.

(** ** Ranges, extrema, dictionaries *)

Lemma range_nil (lo hi : Z) : hi <= lo -> range lo hi = [].
Proof.
  intros H. unfold range.
  replace (Z.to_nat (hi - lo)) with 0%nat by lia. reflexivity.
Qed.

Lemma range_cons (lo hi : Z) : lo < hi -> range lo hi = lo :: range (lo + 1) hi.
Proof.
  intros H. unfold range.
  replace (Z.to_nat (hi - lo)) with (S (Z.to_nat (hi - (lo + 1)))) by lia.
  simpl. f_equal; [lia|].
  rewrite <- seq_shift, map_map. apply map_ext. intros k. lia.
Qed.

Lemma range_length (lo hi : Z) : List.length (range lo hi) = Z.to_nat (hi - lo).
Proof. unfold range. rewrite length_map, length_seq. reflexivity. Qed.

Lemma map_seq_from (f : nat -> Z) (start len : nat) :
  map f (seq start len) = map (fun k => f (start + k)%nat) (seq 0 len).
Proof.
  revert start f. induction len as [|len IH]; intros start f; simpl; [reflexivity|].
  rewrite Nat.add_0_r. f_equal.
  rewrite (IH (S start)), (IH 1%nat). apply map_ext. intros k.
  f_equal. lia.
Qed.

Lemma range_app (lo mid hi : Z) :
  lo <= mid <= hi -> range lo hi = range lo mid ++ range mid hi.
Proof.
  intros H. unfold range.
  replace (Z.to_nat (hi - lo))
    with (Z.to_nat (mid - lo) + Z.to_nat (hi - mid))%nat by lia.
  rewrite seq_app, map_app. f_equal. simpl.
  rewrite map_seq_from. apply map_ext. intros k. lia.
Qed.

(** ** Indexing and the shoelace sum *)

Lemma py_index_nth (l : list Z) (i : Z) (v : Z) :
  0 <= i -> nth_error l (Z.to_nat i) = Some v -> py_index l i = Ok v.
Proof.
  intros Hi Hnth. unfold py_index.
  assert (Hlt : (Z.to_nat i < List.length l)%nat).
  { apply nth_error_Some. congruence. }
  destruct (Z.ltb_spec i 0); [lia|].
  destruct (Z.ltb_spec i 0); [lia|].
  destruct (Z.leb_spec (Z.of_nat (List.length l)) i); [lia|].
  simpl orb. cbv iota. rewrite Hnth. reflexivity.
Qed.

Lemma py_index_last (l : list Z) (v : Z) :
  py_index (l ++ [v]) (-1) = Ok v.
Proof.
  unfold py_index. rewrite length_app. simpl List.length.
  change (-1 <? 0) with true. cbv iota.
  destruct (Z.ltb_spec (Z.of_nat (List.length l + 1) + -1) 0); [lia|].
  destruct (Z.leb_spec (Z.of_nat (List.length l + 1))
              (Z.of_nat (List.length l + 1) + -1)); [lia|].
  simpl orb. cbv iota.
  replace (Z.to_nat (Z.of_nat (List.length l + 1) + -1)) with (List.length l) by lia.
  rewrite nth_error_app2, Nat.sub_diag by lia. reflexivity.
Qed.

Lemma nth_error_middle {A : Type} (pre : list A) (p : A) (rest : list A) :
  nth_error (pre ++ p :: rest) (List.length pre) = Some p.
Proof. rewrite nth_error_app2, Nat.sub_diag by lia. reflexivity. Qed.

(** The terms of indices [k, k+1, ...] are the cross products of the
    vertices from position [k] on. *)
Lemma py_sum_cross (rest : list (Z * Z)) :
  forall (pre : list (Z * Z)) (p : Z * Z) (total : Z),
    let coords := pre ++ p :: rest in
    let k := Z.of_nat (List.length pre) in
    py_sum (shoelace_term (map fst coords) (map snd coords))
      (range k (k + Z.of_nat (List.length rest))) total
    = Ok (total + cross_sum p rest).
Proof.
  induction rest as [|q rest IH]; intros pre p total coords k.
  - rewrite range_nil by (simpl; lia). simpl. f_equal. lia.
  - rewrite range_cons by (simpl List.length; lia). cbn [py_sum].
    assert (Hp : nth_error coords (Z.to_nat k) = Some p).
    { subst coords k. rewrite Nat2Z.id. apply nth_error_middle. }
    assert (Hq : nth_error coords (Z.to_nat (k + 1)) = Some q).
    { subst coords k.
      replace (Z.to_nat (Z.of_nat (List.length pre) + 1))
        with (List.length (pre ++ [p])) by (rewrite length_app; simpl; lia).
      change (pre ++ p :: q :: rest) with (pre ++ [p] ++ q :: rest).
      rewrite app_assoc. apply nth_error_middle. }
    unfold shoelace_term at 1.
    rewrite (py_index_nth (map fst coords) k (fst p))
      by (try (subst k; lia); rewrite nth_error_map, Hp; reflexivity).
    rewrite (py_index_nth (map snd coords) (k + 1) (snd q))
      by (try (subst k; lia); rewrite nth_error_map, Hq; reflexivity).
    rewrite (py_index_nth (map fst coords) (k + 1) (fst q))
      by (try (subst k; lia); rewrite nth_error_map, Hq; reflexivity).
    rewrite (py_index_nth (map snd coords) k (snd p))
      by (try (subst k; lia); rewrite nth_error_map, Hp; reflexivity).
    cbn [bind].
    specialize (IH (pre ++ [p]) q (total + (fst p * snd q - fst q * snd p))).
    cbv zeta in IH. rewrite <- app_assoc in IH. simpl app in IH.
    rewrite length_app in IH. simpl List.length in IH.
    subst coords k. simpl List.length.
    replace (Z.of_nat (List.length pre) + Z.of_nat (S (List.length rest)))
      with (Z.of_nat (List.length pre + 1) + Z.of_nat (List.length rest)) by lia.
    replace (Z.of_nat (List.length pre) + 1)
      with (Z.of_nat (List.length pre + 1)) by lia.
    rewrite IH. f_equal. simpl. unfold cross. lia.
Qed.

(** On a non-empty ring the index-based sum of the source never raises
    and is the shoelace sum of the closed ring. *)
Lemma shoelace_ring (coords : list (Z * Z)) :
  coords <> [] ->
  shoelace (map fst coords) (map snd coords) = Ok (ring_twice_area coords).
Proof.
  intros Hne. destruct coords as [|p0 rest]; [congruence|].
  unfold shoelace. rewrite length_map.
  rewrite range_cons by (simpl List.length; lia).
  cbn [py_sum].
  destruct (exists_last Hne) as (front & plast & Hlast).
  assert (Hx : py_index (map fst (p0 :: rest)) (-1) = Ok (fst plast)).
  { rewrite Hlast, map_app. simpl map. apply py_index_last. }
  assert (Hy : py_index (map snd (p0 :: rest)) (-1) = Ok (snd plast)).
  { rewrite Hlast, map_app. simpl map. apply py_index_last. }
  unfold shoelace_term at 1. change (-1 + 1) with 0.
  rewrite Hx, Hy.
  rewrite (py_index_nth (map fst (p0 :: rest)) 0 (fst p0)) by (try lia; reflexivity).
  rewrite (py_index_nth (map snd (p0 :: rest)) 0 (snd p0)) by (try lia; reflexivity).
  cbn [bind].
  pose proof (py_sum_cross rest [] p0 (0 + (fst plast * snd p0 - fst p0 * snd plast))) as H.
  cbv zeta in H. simpl app in H. simpl (List.length []) in H.
  simpl (List.length (p0 :: rest)).
  replace (Z.of_nat (S (List.length rest)) - 1)
    with (Z.of_nat 0 + Z.of_nat (List.length rest)) by lia.
  change (Z.of_nat 0) with 0 in H |- *.
  rewrite H. f_equal. unfold ring_twice_area.
  replace (last (p0 :: rest) p0) with plast.
  - unfold cross. lia.
  - rewrite Hlast. rewrite last_last. reflexivity.
Qed.

(** [calculate_area] is total on non-empty rings. *)
Lemma calculate_area_ring (coords : list (Z * Z)) :
  coords <> [] ->
  calculate_area coords
  = Ok ((1 # 2) * inject_Z (Z.abs (ring_twice_area coords)))%Q.
Proof.
  intros Hne. unfold calculate_area.
  destruct coords as [|p0 rest]; [congruence|].
  rewrite (shoelace_ring (p0 :: rest) Hne). reflexivity.
Qed.

Lemma np_min_le_first (xs : list Z) (x : Z) : np_min x xs <= x.
Proof.
  unfold np_min. revert x.
  induction xs as [|v xs IH]; intros x; simpl; [lia|].
  specialize (IH (Z.min x v)). lia.
Qed.

Lemma np_max_ge_first (xs : list Z) (x : Z) : x <= np_max x xs.
Proof.
  unfold np_max. revert x.
  induction xs as [|v xs IH]; intros x; simpl; [lia|].
  specialize (IH (Z.max x v)). lia.
Qed.

Lemma np_min_range (xs : list Z) (x lo hi : Z) :
  lo <= x <= hi -> Forall (fun v => lo <= v <= hi) xs ->
  lo <= np_min x xs <= hi.
Proof.
  unfold np_min. intros Hx Hxs. revert x Hx.
  induction Hxs as [|v xs Hv _ IH]; intros x Hx; simpl; [lia|].
  apply IH. lia.
Qed.

Lemma np_max_range (xs : list Z) (x lo hi : Z) :
  lo <= x <= hi -> Forall (fun v => lo <= v <= hi) xs ->
  lo <= np_max x xs <= hi.
Proof.
  unfold np_max. intros Hx Hxs. revert x Hx.
  induction Hxs as [|v xs Hv _ IH]; intros x Hx; simpl; [lia|].
  apply IH. lia.
Qed.

Lemma dict_get_In {V : Type} (k : string) (d : dict V) (v : V) :
  dict_get k d = Ok v -> In (k, v) d.
Proof.
  induction d as [|[k' v'] d IH]; simpl; [discriminate|].
  destruct (String.eqb k k') eqn:E.
  - apply String.eqb_eq in E. intros [= ->]. subst. left. reflexivity.
  - intros H. right. apply IH. exact H.
Qed.

Lemma Qgt_bool_true (x y : Q) : Qgt_bool x y = true <-> (y < x)%Q.
Proof.
  unfold Qgt_bool. rewrite negb_true_iff. split.
  - intros H. apply Qnot_le_lt. intros Hle.
    apply Qle_bool_iff in Hle. congruence.
  - intros H. destruct (Qle_bool x y) eqn:E; [|reflexivity].
    apply Qle_bool_iff in E. exfalso. apply (Qlt_not_le _ _ H E).
Qed.

Lemma segmentation_loop (coords : list (Z * Z)) (seg : list Z) :
  fold_left (fun seg coord => seg ++ [fst coord; snd coord]) coords seg
  = seg ++ flatten_ring coords.
Proof.
  revert seg. induction coords as [|p coords IH]; intros seg; simpl.
  - rewrite app_nil_r. reflexivity.
  - rewrite IH, <- app_assoc. reflexivity.
Qed.

Lemma get_segmentation_flat (coords : list (Z * Z)) :
  get_segmentation_from_coords coords = [flatten_ring coords].
Proof. unfold get_segmentation_from_coords. rewrite segmentation_loop. reflexivity. Qed.

(** The box of a non-empty ring inside the image lies inside the image. *)
Lemma get_bbox_in_image (coords : list (Z * Z)) (width height : Z) :
  coords <> [] -> Forall (in_image width height) coords ->
  exists bbox, get_bbox_from_coords coords = Ok bbox
               /\ bbox_in_image width height bbox.
Proof.
  destruct coords as [|[x0 y0] rest]; [congruence|]. intros _ H.
  inversion H as [|p l [Hx Hy] Hrest]; subst. simpl in Hx, Hy.
  assert (Hxs : Forall (fun v => 0 <= v <= width) (map fst rest)).
  { apply Forall_map. eapply Forall_impl; [|exact Hrest]. intros p Hp; apply Hp. }
  assert (Hys : Forall (fun v => 0 <= v <= height) (map snd rest)).
  { apply Forall_map. eapply Forall_impl; [|exact Hrest]. intros p Hp; apply Hp. }
  eexists. split; [reflexivity|].
  pose proof (np_min_range _ _ _ _ Hx Hxs).
  pose proof (np_max_range _ _ _ _ Hx Hxs).
  pose proof (np_min_range _ _ _ _ Hy Hys).
  pose proof (np_max_range _ _ _ _ Hy Hys).
  pose proof (np_min_le_first (map fst rest) x0).
  pose proof (np_max_ge_first (map fst rest) x0).
  pose proof (np_min_le_first (map snd rest) y0).
  pose proof (np_max_ge_first (map snd rest) y0).
  do 4 eexists. split; [reflexivity|]. lia.
Qed.

(** ** The spatial filter *)

Section Facts.

Variable env : Env.t.

Lemma polygon_to_pixel_coords_polygon (polygon : parsed) (transform : Affine.t)
    (transformer : option Transformer) (ring : list (Z * Z)) :
  polygon_to_pixel_coords polygon transform transformer = Ok ring ->
  exists exterior interiors, polygon = PGeom (Polygon exterior interiors).
Proof.
  destruct polygon as [[exterior interiors|]|]; simpl; try discriminate.
  intros _. eauto.
Qed.

Lemma filter_row_Some (self : Self.t) (image_info : ImageInfo.t)
    (transformer : option Transformer) (idx : Z) (row : TableRow.t)
    (entry : ValidPolygon.t) :
  filter_row env self image_info transformer idx row = Ok (Some entry) ->
  survives (Self.min_area self) image_info entry /\
  ValidPolygon.building entry = TableRow.building row /\
  ValidPolygon.original_idx entry = idx.
Proof.
  unfold filter_row. intros H.
  inv_bind H. destruct v; simpl in H; [|discriminate].
  inv_bind H. destruct v as [|[x0 y0] rest]; [discriminate|].
  destruct (outside_image _ _ _ _ _); [discriminate|].
  inv_bind H. destruct (Qgt_bool v _) eqn:E; [|discriminate].
  injection H as <-. simpl. repeat split.
  exists ((x0, y0) :: rest), v. repeat split; try assumption; try discriminate.
  apply Qgt_bool_true. exact E.
Qed.

Lemma filter_rows_spec (self : Self.t) (image_info : ImageInfo.t)
    (transformer : option Transformer) (rows : list (Z * TableRow.t)) :
  forall valid_polygons result,
    filter_rows env self image_info transformer rows valid_polygons = Ok result ->
    exists kept,
      result = valid_polygons ++ kept /\
      Forall (fun entry =>
                survives (Self.min_area self) image_info entry /\
                exists idx row, In (idx, row) rows /\
                  ValidPolygon.building entry = TableRow.building row /\
                  ValidPolygon.original_idx entry = idx) kept.
Proof.
  induction rows as [|[idx row] rows IH]; intros valid_polygons result H; simpl in H.
  - injection H as <-. exists []. rewrite app_nil_r. split; constructor.
  - inv_bind H. apply IH in H. destruct H as (kept & -> & Hkept).
    assert (Hweak : Forall (fun entry =>
                survives (Self.min_area self) image_info entry /\
                exists idx' row', In (idx', row') ((idx, row) :: rows) /\
                  ValidPolygon.building entry = TableRow.building row' /\
                  ValidPolygon.original_idx entry = idx') kept).
    { eapply Forall_impl; [|exact Hkept].
      intros entry (Hs & idx' & row' & Hin & Hb & Hi).
      split; [exact Hs|]. exists idx', row'. split; [right; exact Hin|]. auto. }
    destruct v as [entry|].
    + exists (entry :: kept). rewrite <- app_assoc. split; [reflexivity|].
      constructor; [|exact Hweak].
      apply filter_row_Some in Hv. destruct Hv as (Hs & Hb & Hi).
      split; [exact Hs|]. exists idx, row. split; [left; reflexivity|]. auto.
    + exists kept. split; [reflexivity | exact Hweak].
Qed.

Lemma filter_valid_polygons_spec (self : Self.t) (image_info : ImageInfo.t)
    (valid_polygons : list ValidPolygon.t) :
  filter_valid_polygons_for_image env self image_info = Ok valid_polygons ->
  Forall (fun entry =>
            survives (Self.min_area self) image_info entry /\
            exists idx row, In (idx, row) (enumerate (Self.df self)) /\
              ValidPolygon.building entry = TableRow.building row /\
              ValidPolygon.original_idx entry = idx) valid_polygons.
Proof.
  unfold filter_valid_polygons_for_image. intros H. inv_bind H.
  apply filter_rows_spec in H. destruct H as (kept & -> & Hkept). exact Hkept.
Qed.

(** ** The assembling loops *)

Lemma same_tables_refl (s : Self.t) : same_tables s s.
Proof. repeat split. Qed.

Lemma same_tables_trans (s1 s2 s3 : Self.t) :
  same_tables s1 s2 -> same_tables s2 s3 -> same_tables s1 s3.
Proof.
  unfold same_tables. intros (A1 & A2 & A3 & A4 & A5 & A6) (B1 & B2 & B3 & B4 & B5 & B6).
  repeat split; congruence.
Qed.

Lemma annotate_polygons_spec (image_info : ImageInfo.t)
    (valid_polygons : list ValidPolygon.t) :
  forall self annotation_id self' annotation_id',
    annotate_polygons self image_info valid_polygons annotation_id
    = Ok (self', annotation_id') ->
    same_tables self self' /\
    annotation_id' = annotation_id + Z.of_nat (List.length valid_polygons) /\
    exists emitted,
      Coco.annotations (Self.coco_format self')
      = Coco.annotations (Self.coco_format self) ++ emitted /\
      map Annotation.id emitted = range annotation_id annotation_id' /\
      Forall2 (assembled (Self.categories self) image_info)
        valid_polygons emitted.
Proof.
  induction valid_polygons as [|polygon_data rest IH];
    intros self annotation_id self' annotation_id' H.
  - simpl in H. injection H as <- <-.
    split; [apply same_tables_refl|]. split; [simpl; lia|].
    exists []. rewrite app_nil_r, range_nil by lia.
    repeat split; constructor.
  - cbn [annotate_polygons] in H.
    inv_bind H. rename v into bbox, Hv into Hbbox.
    inv_bind H. rename v into area, Hv into Harea.
    inv_bind H. rename v into category_id, Hv into Hcat.
    apply IH in H. destruct H as (Hsame & -> & emitted & Hanns & Hids & Hall).
    split.
    { eapply same_tables_trans; [|exact Hsame]. repeat split. }
    split; [simpl List.length; lia|].
    simpl in Hanns. rewrite <- app_assoc in Hanns.
    eexists (_ :: emitted). split; [exact Hanns|]. split.
    + simpl map. rewrite Hids.
      rewrite (range_cons annotation_id) by (simpl List.length; lia).
      simpl List.length. simpl Annotation.id.
      replace (annotation_id + 1 + Z.of_nat (List.length rest))
        with (annotation_id + Z.of_nat (S (List.length rest))) by lia.
      reflexivity.
    + constructor; [|exact Hall]. repeat split; assumption.
Qed.

Lemma process_images_spec (images : list ImageInfo.t) :
  forall self annotation_id self' annotation_id',
    process_images env self images annotation_id = Ok (self', annotation_id') ->
    same_tables self self' /\
    annotation_id <= annotation_id' /\
    exists emitted,
      Coco.annotations (Self.coco_format self')
      = Coco.annotations (Self.coco_format self) ++ emitted /\
      map Annotation.id emitted = range annotation_id annotation_id' /\
      Forall (fun annotation =>
                exists image_info polygon_data,
                  In image_info images /\
                  survives (Self.min_area self) image_info polygon_data /\
                  assembled (Self.categories self) image_info polygon_data
                    annotation) emitted.
Proof.
  induction images as [|image_info rest IH];
    intros self annotation_id self' annotation_id' H.
  - simpl in H. injection H as <- <-.
    split; [apply same_tables_refl|]. split; [lia|].
    exists []. rewrite app_nil_r, range_nil by lia.
    repeat split; constructor.
  - cbn [process_images] in H.
    inv_bind H. rename v into valid_polygons, Hv into Hfilter.
    inv_bind H. destruct v as [self1 id1].
    apply filter_valid_polygons_spec in Hfilter.
    apply annotate_polygons_spec in Hv.
    destruct Hv as (Hsame1 & Hid1 & emitted1 & Hanns1 & Hids1 & Hall1).
    apply IH in H.
    destruct H as (Hsame2 & Hle & emitted2 & Hanns2 & Hids2 & Hall2).
    split; [eapply same_tables_trans; eassumption|].
    split; [lia|].
    exists (emitted1 ++ emitted2). split; [|split].
    + rewrite Hanns2, Hanns1, app_assoc. reflexivity.
    + rewrite map_app, Hids1, Hids2. symmetry. apply range_app. lia.
    + apply Forall_app. split.
      * clear - Hfilter Hall1.
        induction Hall1 as [|polygon_data annotation vps anns Ha _ IHa];
          [constructor|].
        inversion Hfilter as [|? ? [Hs _] Hrest]; subst.
        constructor; [|apply IHa; exact Hrest].
        exists image_info, polygon_data.
        split; [left; reflexivity|]. split; assumption.
      * destruct Hsame1 as (Hm & _ & _ & Hc & _).
        eapply Forall_impl; [|exact Hall2].
        intros annotation (img & pd & Hin & Hs & Ha).
        exists img, pd. split; [right; exact Hin|].
        rewrite <- Hm, <- Hc. split; assumption.
Qed.

(** ** Loading and conversion *)

Lemma load_images_loop_spec (files : list (Z * string)) :
  forall images_info coco_images images_info' coco_images',
    load_images_loop env files images_info coco_images
    = (images_info', coco_images') ->
    exists new_info new_coco,
      images_info' = images_info ++ new_info /\
      coco_images' = coco_images ++ new_coco /\
      map info_dims new_info = map image_dims new_coco /\
      Forall (opened env) new_info.
Proof.
  induction files as [|[idx image_path] rest IH];
    intros images_info coco_images images_info' coco_images' H; simpl in H.
  - injection H as <- <-. exists [], []. rewrite !app_nil_r.
    repeat split; constructor.
  - destruct (Env.rasterio_open env image_path) as [src|] eqn:Hopen.
    + apply IH in H. destruct H as (new_info & new_coco & -> & -> & Hdims & Hopened).
      eexists (_ :: new_info), (_ :: new_coco).
      rewrite <- !app_assoc. split; [reflexivity|]. split; [reflexivity|].
      split.
      * simpl. rewrite Hdims. reflexivity.
      * constructor; [|exact Hopened]. exists image_path, src. repeat split; auto.
    + apply IH in H. exact H.
Qed.

Lemma convert_loop_dims (todo : list CocoImage.t) :
  forall done images_info done' images_info',
    convert_loop env todo done images_info = (done', images_info') ->
    map image_dims done' = map image_dims (done ++ todo).
Proof.
  induction todo as [|image_info rest IH];
    intros done images_info done' images_info' H; simpl in H.
  - injection H as <- <-. rewrite app_nil_r. reflexivity.
  - assert (Hskip : convert_loop env rest (done ++ [image_info]) images_info
                    = (done', images_info') ->
                    map image_dims done' = map image_dims (done ++ image_info :: rest)).
    { intros Hs. apply IH in Hs. rewrite Hs, <- app_assoc. reflexivity. }
    destruct (Env.is_tiff env _); [|auto].
    destruct (find_full_path _ _) as [full_path|]; [|auto].
    destruct (truthy full_path); [|auto].
    destruct (Env.tiff_to_jpg env full_path) as [jpg_path|]; [|auto].
    destruct (truthy jpg_path); [|auto].
    apply IH in H. rewrite H, <- app_assoc, !map_app. reflexivity.
Qed.

Lemma convert_all_tiff_to_jpg_spec (self : Self.t) :
  Coco.annotations (Self.coco_format (convert_all_tiff_to_jpg env self))
  = Coco.annotations (Self.coco_format self) /\
  Coco.categories (Self.coco_format (convert_all_tiff_to_jpg env self))
  = Coco.categories (Self.coco_format self) /\
  map image_dims (Coco.images (Self.coco_format (convert_all_tiff_to_jpg env self)))
  = map image_dims (Coco.images (Self.coco_format self)).
Proof.
  unfold convert_all_tiff_to_jpg.
  destruct (convert_loop env _ _ _) as [coco_images images_info] eqn:E.
  simpl. repeat split. apply convert_loop_dims in E. exact E.
Qed.

(** ** A complete run on a fresh object *)

Lemma run_spec (min_area : Q) (convert_tiff : bool) (coco : Coco.t)
    (self' : Self.t) :
  create_coco_dataset env (init min_area) convert_tiff = Ok (coco, self') ->
  map Annotation.id (Coco.annotations coco)
  = range 1 (1 + Z.of_nat (List.length (Coco.annotations coco))) /\
  exists categories,
    Coco.categories coco = category_infos categories /\
    Forall (fun annotation =>
              exists image_info polygon_data,
                In (info_dims image_info) (map image_dims (Coco.images coco)) /\
                opened env image_info /\
                survives min_area image_info polygon_data /\
                assembled categories image_info polygon_data annotation)
      (Coco.annotations coco).
Proof.
  unfold create_coco_dataset. intros H.
  inv_bind H. rename v into loaded, Hv into Hcsv.
  inv_bind H. destruct v as [assembled_self last_id].
  rename Hv into Hloop.
  (* load_images *)
  unfold load_images in Hcsv.
  destruct (load_images_loop env _ _ _) as [images_info coco_images] eqn:Himgs.
  apply load_images_loop_spec in Himgs.
  destruct Himgs as (new_info & new_coco & -> & -> & Hdims & Hopened).
  simpl in Hdims, Hopened.
  (* load_csv *)
  unfold load_csv in Hcsv.
  destruct (negb _ || negb _); [discriminate|].
  inv_bind Hcsv. injection Hcsv as <-.
  (* the loops *)
  apply process_images_spec in Hloop.
  destruct Hloop as (Hsame & Hle & emitted & Hanns & Hids & Hall).
  destruct Hsame as (Hm & Hi & _ & Hc & Hci & Hcc).
  simpl in Hanns, Hids, Hall, Hm, Hi, Hc, Hci, Hcc.
  (* conversion *)
  assert (Hfinal :
    Coco.annotations coco = emitted /\
    Coco.categories coco = Coco.categories (Self.coco_format assembled_self) /\
    map image_dims (Coco.images coco)
    = map image_dims (Coco.images (Self.coco_format assembled_self))).
  { destruct convert_tiff; injection H as <- <-.
    - destruct (convert_all_tiff_to_jpg_spec assembled_self) as (-> & -> & ->).
      rewrite Hanns. auto.
    - rewrite Hanns. auto. }
  destruct Hfinal as (-> & Hcats & Himages).
  split.
  - rewrite Hids. f_equal.
    apply (f_equal (@List.length Z)) in Hids.
    rewrite length_map, range_length in Hids. lia.
  - eexists. split; [rewrite Hcats, Hcc; reflexivity|].
    eapply Forall_impl; [|exact Hall].
    intros annotation (image_info & polygon_data & Hin & Hs & Ha).
    exists image_info, polygon_data.
    split; [|split; [|split; assumption]].
    + rewrite Himages, Hci, <- Hdims. apply in_map. exact Hin.
    + rewrite Forall_forall in Hopened. apply Hopened. exact Hin.
Qed.

(** C2: after a complete run on a fresh object, the identifiers of the
    annotations are, in emission order, 1, 2, ..., N, where N is the
    number of annotations. *)
Theorem annotation_ids_contiguous (min_area : Q) (convert_tiff : bool)
    (coco : Coco.t) (self' : Self.t) :
  create_coco_dataset env (init min_area) convert_tiff = Ok (coco, self') ->
  map Annotation.id (Coco.annotations coco)
  = range 1 (1 + Z.of_nat (List.length (Coco.annotations coco))).
Proof. intros H. apply run_spec in H. apply H. Qed.

(** C3: after a complete run on a fresh object, every annotation's
    [image_id] is the identifier of an entry of [images] and its
    [category_id] is the identifier of an entry of [categories]. *)
Theorem annotations_reference_images_and_categories (min_area : Q)
    (convert_tiff : bool) (coco : Coco.t) (self' : Self.t) :
  create_coco_dataset env (init min_area) convert_tiff = Ok (coco, self') ->
  forall annotation, In annotation (Coco.annotations coco) ->
    (exists image, In image (Coco.images coco) /\
       CocoImage.id image = Annotation.image_id annotation) /\
    (exists category, In category (Coco.categories coco) /\
       Category.id category = Annotation.category_id annotation).
Proof.
  intros H annotation Hin. apply run_spec in H.
  destruct H as (_ & categories & Hcats & Hall).
  rewrite Forall_forall in Hall.
  destruct (Hall _ Hin) as (image_info & polygon_data & Himg & _ & _ & Ha).
  destruct Ha as (Hid & _ & _ & Hcat & _). split.
  - apply in_map_iff in Himg. destruct Himg as (image & Hdims & Himage).
    exists image. split; [exact Himage|].
    rewrite Hid. unfold image_dims, info_dims in Hdims. congruence.
  - apply dict_get_In in Hcat. rewrite Hcats.
    eexists. split; [apply in_map; exact Hcat|]. reflexivity.
Qed.

(** C4: after a complete run on a fresh object every annotation has an
    area strictly above [min_area]; and in the filter, a row whose
    projected ring, clamped into the image, has an area at most [min_area]
    is passed over: the loop goes on as if the row were not there. *)
Theorem area_threshold_enforced :
  (forall min_area convert_tiff coco self',
      create_coco_dataset env (init min_area) convert_tiff = Ok (coco, self') ->
      forall annotation, In annotation (Coco.annotations coco) ->
        (min_area < Annotation.area annotation)%Q) /\
  (forall self image_info transformer idx row ring area rest valid_polygons,
      polygon_to_pixel_coords (TableRow.geometry row)
        (ImageInfo.transform image_info) transformer = Ok ring ->
      calculate_area
        (clip_coords ring (ImageInfo.width image_info)
           (ImageInfo.height image_info)) = Ok area ->
      (area <= Self.min_area self)%Q ->
      filter_row env self image_info transformer idx row = Ok None /\
      filter_rows env self image_info transformer ((idx, row) :: rest)
        valid_polygons
      = filter_rows env self image_info transformer rest valid_polygons).
Proof.
  split.
  - intros min_area convert_tiff coco self' H annotation Hin.
    apply run_spec in H. destruct H as (_ & categories & _ & Hall).
    rewrite Forall_forall in Hall.
    destruct (Hall _ Hin) as (image_info & polygon_data & _ & _ & Hs & Ha).
    destruct Hs as (ring & area & _ & _ & Harea & Hlt).
    destruct Ha as (_ & _ & Harea' & _).
    rewrite Harea in Harea'. injection Harea' as <-. exact Hlt.
  - intros self image_info transformer idx row ring area rest valid_polygons
      Hring Harea Hle.
    assert (Hrow : filter_row env self image_info transformer idx row = Ok None).
    { unfold filter_row.
      destruct (polygon_to_pixel_coords_polygon _ _ _ _ Hring)
        as (exterior & interiors & Hpoly).
      rewrite Hpoly in *. simpl polygon_intersects_image. simpl bind.
      destruct (negb _); [reflexivity|].
      rewrite Hring. simpl bind.
      destruct ring as [|[x0 y0] ring']; [discriminate|].
      destruct (outside_image _ _ _ _ _); [reflexivity|].
      rewrite Harea. simpl bind.
      destruct (Qgt_bool area (Self.min_area self)) eqn:E; [|reflexivity].
      apply Qgt_bool_true in E. exfalso. apply (Qlt_not_le _ _ E Hle). }
    split; [exact Hrow|]. simpl. rewrite Hrow. reflexivity.
Qed.

(** C10: when every raster has a non-negative width and height, after a
    complete run on a fresh object every annotation belongs to an image
    of [images] in which its box [x_min, y_min, w, h] lies, with
    non-negative sides, and in which every vertex of its segmentation
    ring lies. *)
Theorem annotations_within_image (min_area : Q) (convert_tiff : bool)
    (coco : Coco.t) (self' : Self.t) :
  sized_rasters env ->
  create_coco_dataset env (init min_area) convert_tiff = Ok (coco, self') ->
  forall annotation, In annotation (Coco.annotations coco) ->
    exists image,
      In image (Coco.images coco) /\
      CocoImage.id image = Annotation.image_id annotation /\
      bbox_in_image (CocoImage.width image) (CocoImage.height image)
        (Annotation.bbox annotation) /\
      exists ring,
        Annotation.segmentation annotation = [flatten_ring ring] /\
        Forall (in_image (CocoImage.width image) (CocoImage.height image)) ring.
Proof.
  intros Hsized H annotation Hin. apply run_spec in H.
  destruct H as (_ & categories & _ & Hall).
  rewrite Forall_forall in Hall.
  destruct (Hall _ Hin) as (image_info & polygon_data & Himg & Hopen & Hs & Ha).
  apply in_map_iff in Himg. destruct Himg as (image & Hdims & Himage).
  unfold image_dims, info_dims in Hdims. injection Hdims as Hid Hw Hh.
  destruct Hopen as (path & src & Hsrc & Hsw & Hsh & _).
  destruct (Hsized _ _ Hsrc) as (Hw0 & Hh0).
  destruct Hs as (ring & area & Hne & Hcoords & _ & _).
  destruct Ha as (Hid' & Hbbox & _ & _ & Hseg).
  assert (Hinside : Forall (in_image (CocoImage.width image)
                              (CocoImage.height image))
                      (ValidPolygon.coords polygon_data)).
  { rewrite Hcoords, Hw, Hh. apply clip_coords_in_image; lia. }
  assert (Hnonempty : ValidPolygon.coords polygon_data <> []).
  { rewrite Hcoords, clip_coords_map. destruct ring; [congruence|discriminate]. }
  exists image. split; [exact Himage|]. split; [congruence|]. split.
  - destruct (get_bbox_in_image _ _ _ Hnonempty Hinside) as (bbox & Hb & Hin_image).
    rewrite Hb in Hbbox. injection Hbbox as <-. exact Hin_image.
  - exists (ValidPolygon.coords polygon_data).
    split; [rewrite Hseg; apply get_segmentation_flat | exact Hinside].
Qed.

(** ** Loading the polygon table *)

Lemma parse_geometry_raises (rows : list RawRow.t) (err : exn) :
  parse_geometry env rows = Raise err -> err = WKTReadingError.
Proof.
  induction rows as [|r rest IH]; simpl; [discriminate|].
  destruct (RawRow.geometry r) as [wkt|]; simpl.
  - destruct (Env.loads env wkt); simpl.
    + destruct (parse_geometry env rest); simpl; [discriminate|].
      intros [= <-]. apply IH. reflexivity.
    + intros [= <-]. reflexivity.
  - destruct (parse_geometry env rest); simpl; [discriminate|].
    intros [= <-]. apply IH. reflexivity.
Qed.

Lemma parse_geometry_unparsable (rows : list RawRow.t) (row : RawRow.t)
    (wkt : string) :
  In row rows -> RawRow.geometry row = CStr wkt -> Env.loads env wkt = None ->
  parse_geometry env rows = Raise WKTReadingError.
Proof.
  intros Hin Hcell Hloads.
  destruct (parse_geometry env rows) as [parsed_rows|err] eqn:E.
  - exfalso. revert parsed_rows E.
    induction rows as [|r rest IH]; intros parsed_rows E; [contradiction|].
    simpl in E. inv_bind E. inv_bind E.
    destruct Hin as [->|Hin].
    + rewrite Hcell, Hloads in Hv. discriminate.
    + eapply IH; eassumption.
  - f_equal. eapply parse_geometry_raises. exact E.
Qed.

Lemma parse_geometry_origin (rows : list RawRow.t) :
  forall parsed_rows, parse_geometry env rows = Ok parsed_rows ->
  forall row, In row parsed_rows -> valid_mask row = true ->
    exists raw wkt exterior interiors,
      In raw rows /\
      RawRow.building raw = TableRow.building row /\
      RawRow.geometry raw = CStr wkt /\
      Env.loads env wkt = Some (Polygon exterior interiors) /\
      TableRow.geometry row = PGeom (Polygon exterior interiors).
Proof.
  induction rows as [|r rest IH]; intros parsed_rows H row Hin Hmask; simpl in H.
  - injection H as <-. contradiction.
  - inv_bind H. inv_bind H. injection H as <-.
    destruct Hin as [<-|Hin].
    + unfold valid_mask in Hmask. simpl in Hmask |- *.
      destruct (RawRow.geometry r) as [wkt|] eqn:Hcell.
      * destruct (Env.loads env wkt) as [g|] eqn:Hloads; [|discriminate].
        injection Hv as <-.
        destruct g as [exterior interiors|]; [|discriminate].
        exists r, wkt, exterior, interiors.
        split; [left; reflexivity|]. repeat split; auto.
      * injection Hv as <-. discriminate.
    + destruct (IH _ Hv0 _ Hin Hmask)
        as (raw & wkt & exterior & interiors & Hraw & Hrest).
      exists raw, wkt, exterior, interiors. split; [right; exact Hraw | exact Hrest].
Qed.

(** C7 on the code: when the table has both columns and the reader
    rejects the geometry string of one of its rows, [load_csv] raises the
    reader's error and so does the whole run, whatever the other rows
    are. *)
Theorem unparsable_row_aborts (self : Self.t) (convert_tiff : bool)
    (row : RawRow.t) (wkt : string) :
  has_column "building" (Csv.columns (Env.read_csv env)) = true ->
  has_column "geometry" (Csv.columns (Env.read_csv env)) = true ->
  In row (Csv.rows (Env.read_csv env)) ->
  RawRow.geometry row = CStr wkt ->
  Env.loads env wkt = None ->
  load_csv env self = Raise WKTReadingError /\
  create_coco_dataset env self convert_tiff = Raise WKTReadingError.
Proof.
  intros Hb Hg Hin Hcell Hloads.
  assert (Hload : forall s, load_csv env s = Raise WKTReadingError).
  { intros s. unfold load_csv. rewrite Hb, Hg. simpl.
    rewrite (parse_geometry_unparsable _ _ _ Hin Hcell Hloads). reflexivity. }
  split; [apply Hload|].
  unfold create_coco_dataset. rewrite Hload. reflexivity.
Qed.

(** C8, as the code has it: every row that [load_csv] retains comes from
    a row of the table whose geometry is a string that the reader turned
    into a polygon, so a row with a missing geometry, or with a geometry
    that has no exterior ring, is not retained; the number of vertices
    of the ring is not looked at. *)
Theorem retained_rows_are_polygons (self self' : Self.t) :
  load_csv env self = Ok self' ->
  forall row, In row (Self.df self') ->
    exists raw wkt exterior interiors,
      In raw (Csv.rows (Env.read_csv env)) /\
      RawRow.building raw = TableRow.building row /\
      RawRow.geometry raw = CStr wkt /\
      Env.loads env wkt = Some (Polygon exterior interiors) /\
      TableRow.geometry row = PGeom (Polygon exterior interiors).
Proof.
  unfold load_csv. intros H row Hin.
  destruct (negb _ || negb _); [discriminate|].
  inv_bind H. injection H as <-. simpl in Hin.
  apply filter_In in Hin. destruct Hin as (Hin & Hmask).
  eapply parse_geometry_origin; eassumption.
Qed.

(** C6, as the code has it: the rasterizer reads the exterior ring only,
    so a polygon with interior rings is projected, and filtered, exactly
    as the polygon without them whenever the coarse test answers the same
    for both; nothing is raised on account of the interior rings, and the
    segmentation always holds one ring.  A geometry without an exterior
    ring (a multi-part one) is masked out at load time. *)
Theorem interior_rings_ignored (self : Self.t) (image_info : ImageInfo.t)
    (transformer : option Transformer) (idx : Z) (label : string)
    (exterior : list (Q * Q)) (interiors : list (list (Q * Q))) :
  Env.intersects env (Polygon exterior interiors)
    (image_poly (ImageInfo.bounds image_info))
  = Env.intersects env (Polygon exterior [])
      (image_poly (ImageInfo.bounds image_info)) ->
  polygon_to_pixel_coords (PGeom (Polygon exterior interiors))
    (ImageInfo.transform image_info) transformer
  = polygon_to_pixel_coords (PGeom (Polygon exterior []))
      (ImageInfo.transform image_info) transformer /\
  filter_row env self image_info transformer idx
    {| TableRow.building := label; TableRow.geometry := PGeom (Polygon exterior interiors) |}
  = filter_row env self image_info transformer idx
      {| TableRow.building := label; TableRow.geometry := PGeom (Polygon exterior []) |} /\
  (forall coords, List.length (get_segmentation_from_coords coords) = 1%nat) /\
  valid_mask {| TableRow.building := label; TableRow.geometry := PGeom OtherGeometry |}
  = false.
Proof.
  intros Hsame. split; [reflexivity|]. split; [|split; reflexivity].
  unfold filter_row. simpl. rewrite Hsame. reflexivity.
Qed.

(** ** No step raises on well-formed inputs *)

Lemma geographic_to_pixel_Ok (lon lat : Q) (transform : Affine.t)
    (transformer : option Transformer) :
  ~ (Affine.a transform == 0)%Q -> ~ (Affine.e transform == 0)%Q ->
  exists pixel, geographic_to_pixel lon lat transform transformer = Ok pixel.
Proof.
  intros Ha He. unfold geographic_to_pixel.
  destruct (reproject transformer lon lat) as [x y].
  rewrite (true_div_Ok _ _ Ha). simpl.
  rewrite (true_div_Ok _ _ He). simpl. eauto.
Qed.

Lemma project_ring_total (exterior_coords : list (Q * Q)) (transform : Affine.t)
    (transformer : option Transformer) :
  ~ (Affine.a transform == 0)%Q -> ~ (Affine.e transform == 0)%Q ->
  forall pixel_coords,
  exists ring,
    project_ring exterior_coords transform transformer pixel_coords
    = Ok (pixel_coords ++ ring) /\
    List.length ring = List.length exterior_coords.
Proof.
  intros Ha He.
  induction exterior_coords as [|[lon lat] rest IH]; intros pixel_coords; simpl.
  - exists []. rewrite app_nil_r. auto.
  - destruct (geographic_to_pixel_Ok lon lat transform transformer Ha He)
      as ([col row] & ->).
    simpl. destruct (IH (pixel_coords ++ [(col, row)])) as (ring & -> & Hlen).
    exists ((col, row) :: ring). rewrite <- app_assoc. simpl. auto.
Qed.

Lemma clip_coords_nonempty (ring : list (Z * Z)) (width height : Z) :
  ring <> [] -> clip_coords ring width height <> [].
Proof.
  rewrite clip_coords_map. destruct ring; [congruence | discriminate].
Qed.

Lemma filter_row_total (self : Self.t) (image_info : ImageInfo.t)
    (transformer : option Transformer) (idx : Z) (row : TableRow.t) :
  well_formed_inputs env ->
  valid_mask row = true ->
  ~ (Affine.a (ImageInfo.transform image_info) == 0)%Q ->
  ~ (Affine.e (ImageInfo.transform image_info) == 0)%Q ->
  exists kept, filter_row env self image_info transformer idx row = Ok kept.
Proof.
  intros (_ & _ & _ & _ & Hempty) Hmask Ha He.
  unfold filter_row, valid_mask in *.
  destruct (TableRow.geometry row) as [[exterior interiors|]|]; try discriminate.
  cbn [polygon_intersects_image bind].
  destruct (Env.intersects env _ _) eqn:Hint; cbn [negb]; [|eauto].
  unfold polygon_to_pixel_coords. cbn [exterior_coords_of bind].
  destruct (project_ring_total exterior (ImageInfo.transform image_info)
              transformer Ha He []) as (ring & Hring & Hlen).
  rewrite Hring. cbn [bind app]. specialize (Hempty _ _ _ Hint).
  destruct ring as [|[x0 y0] rest].
  { destruct exterior; [congruence | discriminate]. }
  destruct (outside_image _ _ _ _ _); [eauto|].
  rewrite calculate_area_ring by (apply clip_coords_nonempty; discriminate).
  simpl. destruct (Qgt_bool _ _); eauto.
Qed.

Lemma filter_rows_total (self : Self.t) (image_info : ImageInfo.t)
    (transformer : option Transformer) (rows : list (Z * TableRow.t)) :
  well_formed_inputs env ->
  Forall (fun entry => valid_mask (snd entry) = true) rows ->
  ~ (Affine.a (ImageInfo.transform image_info) == 0)%Q ->
  ~ (Affine.e (ImageInfo.transform image_info) == 0)%Q ->
  forall valid_polygons,
  exists result,
    filter_rows env self image_info transformer rows valid_polygons = Ok result.
Proof.
  intros Hwf Hrows Ha He.
  induction Hrows as [|[idx row] rows Hmask _ IH]; intros valid_polygons; simpl.
  - eauto.
  - destruct (filter_row_total self image_info transformer idx row Hwf Hmask Ha He)
      as (kept & ->).
    simpl. apply IH.
Qed.

Lemma enumerate_snd {A : Type} (l : list A) : map snd (enumerate l) = l.
Proof.
  unfold enumerate.
  assert (H : forall (ks : list Z), List.length ks = List.length l ->
                map snd (combine ks l) = l).
  { induction l as [|x l IH]; intros [|k ks] Hlen; simpl in *;
      try reflexivity; try discriminate.
    f_equal. apply IH. lia. }
  apply H. rewrite range_length. lia.
Qed.

Lemma dict_get_set_same {V : Type} (k : string) (v : V) (d : dict V) :
  dict_get k (dict_set k v d) = Ok v.
Proof.
  induction d as [|[k' v'] d IH]; simpl.
  - rewrite String.eqb_refl. reflexivity.
  - destruct (String.eqb k k') eqn:E; simpl; rewrite E; [reflexivity | exact IH].
Qed.

Lemma dict_get_set_defined {V : Type} (k k' : string) (v v' : V) (d : dict V) :
  dict_get k d = Ok v -> exists w, dict_get k (dict_set k' v' d) = Ok w.
Proof.
  induction d as [|[k0 v0] d IH]; simpl; [discriminate|].
  destruct (String.eqb k k0) eqn:E; intros H.
  - destruct (String.eqb k' k0); simpl; rewrite E; eauto.
  - destruct (String.eqb k' k0); simpl; rewrite E; eauto.
Qed.

Lemma make_categories_defined (entries : list (Z * string)) (label : string) :
  forall cats,
    (In label (map snd entries) \/ exists v, dict_get label cats = Ok v) ->
    exists id,
      dict_get label
        (fold_left (fun cats entry => dict_set (snd entry) (fst entry + 1) cats)
           entries cats) = Ok id.
Proof.
  induction entries as [|[idx name] entries IH]; intros cats H; simpl.
  - destruct H as [[]|H]; exact H.
  - apply IH. simpl in H. destruct H as [[->|H]|(v & H)].
    + right. eexists. apply dict_get_set_same.
    + left. exact H.
    + right. eapply dict_get_set_defined. exact H.
Qed.

Lemma unique_from_complete (l seen : list string) (label : string) :
  In label l -> In label seen \/ In label (unique_from seen l).
Proof.
  revert seen. induction l as [|s l IH]; intros seen H; [contradiction|].
  simpl. destruct (existsb (String.eqb s) seen) eqn:E.
  - destruct H as [->|H]; [|apply IH; exact H].
    left. apply existsb_exists in E. destruct E as (x & Hx & Heq).
    apply String.eqb_eq in Heq. subst. exact Hx.
  - destruct H as [->|H]; [right; left; reflexivity|].
    destruct (IH (s :: seen) H) as [[->|Hs]|Hu]; auto.
    + right. left. reflexivity.
    + right. right. exact Hu.
Qed.

(** The lookup of line 329 cannot miss: every label of the table has a
    category. *)
Lemma category_lookup_defined (labels : list string) (label : string) :
  In label labels ->
  exists id, dict_get label (make_categories (unique labels)) = Ok id.
Proof.
  intros H. unfold make_categories. apply make_categories_defined. left.
  rewrite enumerate_snd.
  destruct (unique_from_complete labels [] label H) as [[]|Hu]. exact Hu.
Qed.

Lemma annotate_polygons_total (image_info : ImageInfo.t)
    (valid_polygons : list ValidPolygon.t) :
  forall self annotation_id,
    Forall (fun entry =>
              ValidPolygon.coords entry <> [] /\
              exists id, dict_get (ValidPolygon.building entry)
                           (Self.categories self) = Ok id) valid_polygons ->
    exists final,
      annotate_polygons self image_info valid_polygons annotation_id = Ok final.
Proof.
  induction valid_polygons as [|polygon_data rest IH]; intros self annotation_id H.
  - simpl. eauto.
  - inversion H as [|? ? (Hne & id & Hid) Hrest]; subst.
    cbn [annotate_polygons].
    destruct (ValidPolygon.coords polygon_data) as [|[x0 y0] coords] eqn:Hc;
      [congruence|].
    cbn [get_bbox_from_coords bind].
    rewrite calculate_area_ring by discriminate. cbn [bind].
    rewrite Hid. cbn [bind]. apply IH. exact Hrest.
Qed.

Lemma process_images_total (images : list ImageInfo.t) :
  well_formed_inputs env ->
  Forall (fun image_info =>
            ImageInfo.crs image_info <> None /\
            ~ (Affine.a (ImageInfo.transform image_info) == 0)%Q /\
            ~ (Affine.e (ImageInfo.transform image_info) == 0)%Q) images ->
  forall self annotation_id,
    Forall (fun row => valid_mask row = true) (Self.df self) ->
    (forall row, In row (Self.df self) ->
       exists id, dict_get (TableRow.building row) (Self.categories self) = Ok id) ->
    exists final, process_images env self images annotation_id = Ok final.
Proof.
  intros Hwf Himages.
  induction Himages as [|image_info rest (Hcrs & Ha & He) _ IH];
    intros self annotation_id Hdf Hcats.
  - simpl. eauto.
  - cbn [process_images].
    assert (Hfilter : exists valid_polygons,
               filter_valid_polygons_for_image env self image_info
               = Ok valid_polygons).
    { unfold filter_valid_polygons_for_image, setup_coordinate_transformer.
      destruct (ImageInfo.crs image_info) as [crs|]; [|congruence].
      destruct (negb _); cbn [bind];
        apply filter_rows_total; auto;
        apply Forall_map with (f := snd) (P := fun row => valid_mask row = true);
        rewrite enumerate_snd; exact Hdf. }
    destruct Hfilter as (valid_polygons & Hfilter). rewrite Hfilter. cbn [bind].
    apply filter_valid_polygons_spec in Hfilter.
    assert (Hann : exists final,
               annotate_polygons self image_info valid_polygons annotation_id
               = Ok final).
    { apply annotate_polygons_total.
      eapply Forall_impl; [|exact Hfilter].
      intros entry ((ring & area & Hne & Hcoords & _) & idx & row & Hin & Hb & _).
      split.
      - rewrite Hcoords. apply clip_coords_nonempty. exact Hne.
      - rewrite Hb. apply Hcats.
        rewrite <- (enumerate_snd (Self.df self)).
        apply in_map_iff. exists (idx, row). auto. }
    destruct Hann as ([self1 id1] & Hann). rewrite Hann. cbn [bind].
    apply annotate_polygons_spec in Hann.
    destruct Hann as ((_ & _ & Hd & Hc & _) & _).
    apply IH; rewrite Hd, ?Hc; assumption.
Qed.

Lemma parse_geometry_total (rows : list RawRow.t) :
  (forall row wkt, In row rows -> RawRow.geometry row = CStr wkt ->
                   Env.loads env wkt <> None) ->
  exists parsed_rows, parse_geometry env rows = Ok parsed_rows.
Proof.
  induction rows as [|r rest IH]; intros H; simpl; [eauto|].
  destruct IH as (parsed_rest & ->).
  { intros row wkt Hin. apply H. right. exact Hin. }
  destruct (RawRow.geometry r) as [wkt|] eqn:Hcell; simpl; [|eauto].
  destruct (Env.loads env wkt) eqn:Hloads; simpl; [eauto|].
  exfalso. exact (H r wkt (or_introl eq_refl) Hcell Hloads).
Qed.

(** On well-formed inputs a run on a fresh object completes: none of the
    exceptions of the model is raised, in particular the category lookup
    never misses. *)
Theorem create_coco_dataset_completes (min_area : Q) (convert_tiff : bool) :
  well_formed_inputs env ->
  exists coco self',
    create_coco_dataset env (init min_area) convert_tiff = Ok (coco, self').
Proof.
  intros Hwf. pose proof Hwf as (Hcb & Hcg & Hloads & Hrasters & _).
  unfold create_coco_dataset, load_images.
  destruct (load_images_loop env _ _ _) as [images_info coco_images] eqn:Himgs.
  apply load_images_loop_spec in Himgs.
  destruct Himgs as (new_info & new_coco & -> & -> & _ & Hopened).
  unfold load_csv. rewrite Hcb, Hcg. cbn [negb orb].
  destruct (parse_geometry_total _ Hloads) as (parsed_rows & ->).
  cbn [bind Self.images_info app].
  match goal with
  | |- context [process_images env ?s ?imgs ?k] =>
      destruct (process_images_total imgs Hwf) with (self := s) (annotation_id := k)
        as ([final last_id] & Hrun)
  end.
  - eapply Forall_impl; [|exact Hopened].
    intros image_info (path & src & Hsrc & _ & _ & Hc & Ht).
    rewrite Hc, Ht. apply (Hrasters _ _ Hsrc).
  - cbn [Self.df]. apply Forall_forall. intros row Hin.
    apply filter_In in Hin. apply Hin.
  - cbn [Self.df Self.categories]. intros row Hin.
    apply category_lookup_defined. apply in_map. exact Hin.
  - rewrite Hrun. cbn [bind]. eauto.
Qed.

(** ** The scenario of the specification *)

(** C9: a folder with one 640 x 640 tile in EPSG:4326 whose transform has
    a = 1, e = -1, c = 0, f = 640, and a table with the single row
    ("house", ring [(10,630),(20,630),(20,620),(10,620)]), the ring
    written as in the specification or closed as shapely holds it, for
    which the coarse test answers yes: the run completes with exactly one
    annotation, on image 1, with box [10, 10, 10, 10], area 100 and a
    category named "house". *)
Theorem house_scenario (convert_tiff : bool) (path wkt : string)
    (src : Raster.t) (crs : CRS.t) (ring : list (Q * Q)) :
  Env.image_files env = [path] ->
  Env.rasterio_open env path = Some src ->
  Raster.width src = 640 ->
  Raster.height src = 640 ->
  Affine.a (Raster.transform src) = 1%Q ->
  Affine.e (Raster.transform src) = (-1)%Q ->
  Affine.c (Raster.transform src) = 0%Q ->
  Affine.f (Raster.transform src) = 640%Q ->
  Raster.crs src = Some crs ->
  CRS.to_epsg crs = Some 4326 ->
  has_column "building" (Csv.columns (Env.read_csv env)) = true ->
  has_column "geometry" (Csv.columns (Env.read_csv env)) = true ->
  Csv.rows (Env.read_csv env) = [building_row "house" wkt] ->
  Env.loads env wkt = Some (Polygon ring []) ->
  ring = house_ring \/ ring = house_ring_closed ->
  Env.intersects env (Polygon ring []) (image_poly (Raster.bounds src)) = true ->
  exists coco self' annotation category,
    create_coco_dataset env (init 10) convert_tiff = Ok (coco, self') /\
    Coco.annotations coco = [annotation] /\
    Annotation.image_id annotation = 1 /\
    Annotation.bbox annotation = [10; 10; 10; 10] /\
    (Annotation.area annotation == 100)%Q /\
    In category (Coco.categories coco) /\
    Category.id category = Annotation.category_id annotation /\
    Category.name category = "house"%string.
Proof.
  intros Hfiles Hopen Hw Hh Ha He Hc Hf Hcrs Hepsg Hcb Hcg Hrows Hloads Hring Hint.
  unfold create_coco_dataset, load_images. rewrite Hfiles. simpl load_images_loop.
  rewrite Hopen. unfold load_csv. rewrite Hcb, Hcg, Hrows. simpl negb. simpl orb.
  cbv iota. simpl parse_geometry. rewrite Hloads. simpl bind.
  destruct src as [w h crs0 [a b c d e f] bounds].
  simpl in Hw, Hh, Ha, He, Hc, Hf, Hcrs, Hint.
  subst w h a e c f crs0.
  unfold filter_valid_polygons_for_image, setup_coordinate_transformer.
  cbn [ImageInfo.crs Raster.crs]. rewrite Hepsg.
  destruct Hring as [-> | ->]; destruct convert_tiff;
    (do 4 eexists;
     split;
     [ cbv -[Env.intersects image_poly Env.basename convert_all_tiff_to_jpg
             Self.coco_format house_ring house_ring_closed project_ring
             calculate_area clip_coords outside_image Qgt_bool
             get_bbox_from_coords get_segmentation_from_coords];
       rewrite Hint;
       cbv -[Env.basename convert_all_tiff_to_jpg Self.coco_format];
       reflexivity
     | try match goal with
           | |- context [convert_all_tiff_to_jpg env ?s] =>
               destruct (convert_all_tiff_to_jpg_spec s) as (Hanns & Hcats & _);
               rewrite Hanns, Hcats
           end;
       cbn;
       split; [reflexivity|]; split; [reflexivity|]; split; [reflexivity|];
       split; [reflexivity|]; split; [left; reflexivity|];
       split; reflexivity ]).
Qed.

End Facts.

(** ** The theorems at concrete scenes *)

(** The scenes are well-formed inputs. *)
Lemma scene_well_formed (files : list string) (rows : list RawRow.t) :
  (forall row wkt, In row rows -> RawRow.geometry row = CStr wkt ->
                   scene_loads wkt <> None) ->
  well_formed_inputs (scene files rows).
Proof.
  intros Hrows. repeat split.
  - exact Hrows.
  - simpl in H. destruct (existsb _ _); [|discriminate].
    injection H as <-. discriminate.
  - simpl in H. destruct (existsb _ _); [|discriminate].
    injection H as <-. simpl. intros E. vm_compute in E. discriminate.
  - simpl in H. destruct (existsb _ _); [|discriminate].
    injection H as <-. simpl. intros E. vm_compute in E. discriminate.
  - intros exterior interiors other H. simpl in H.
    destruct exterior; [|discriminate].
    destruct other; simpl in H; discriminate.
Qed.

Lemma village_scene_completes :
  exists coco self',
    create_coco_dataset village_scene (init 10) false = Ok (coco, self').
Proof.
  apply create_coco_dataset_completes. apply scene_well_formed.
  intros row wkt Hin Hcell. simpl in Hin.
  destruct Hin as [<-|[<-|[<-|[<-|[]]]]]; simpl in Hcell;
    try discriminate; injection Hcell as <-; vm_compute; discriminate.
Qed.

Lemma annotation_ids_contiguous_witness :
  exists coco self',
    create_coco_dataset village_scene (init 10) true = Ok (coco, self') /\
    map Annotation.id (Coco.annotations coco) = [1; 2; 3; 4; 5; 6].
Proof.
  eexists; eexists. split; [vm_compute; reflexivity|].
  erewrite (annotation_ids_contiguous village_scene 10%Q true);
    [reflexivity | vm_compute; reflexivity].
Defined.

Lemma annotations_reference_images_and_categories_witness :
  exists coco self',
    create_coco_dataset village_scene (init 10) true = Ok (coco, self') /\
    forall annotation, In annotation (Coco.annotations coco) ->
      (exists image, In image (Coco.images coco) /\
         CocoImage.id image = Annotation.image_id annotation) /\
      (exists category, In category (Coco.categories coco) /\
         Category.id category = Annotation.category_id annotation).
Proof.
  eexists; eexists. split; [vm_compute; reflexivity|].
  eapply (annotations_reference_images_and_categories village_scene 10%Q true).
  vm_compute; reflexivity.
Defined.

Lemma area_threshold_enforced_witness :
  (exists coco self',
     create_coco_dataset village_scene (init 10) true = Ok (coco, self') /\
     forall annotation, In annotation (Coco.annotations coco) ->
       (10 < Annotation.area annotation)%Q) /\
  filter_row house_scene (init 100) tile_info None 0
    {| TableRow.building := "house";
       TableRow.geometry := PGeom (Polygon house_ring_closed []) |}
  = Ok None.
Proof.
  split.
  - eexists; eexists. split; [vm_compute; reflexivity|].
    eapply (proj1 (area_threshold_enforced village_scene) 10%Q true).
    vm_compute; reflexivity.
  - apply (proj2 (area_threshold_enforced house_scene) (init 100) tile_info None 0
             {| TableRow.building := "house";
                TableRow.geometry := PGeom (Polygon house_ring_closed []) |}
             house_pixels (200 # 2)%Q [] []).
    + vm_compute; reflexivity.
    + vm_compute; reflexivity.
    + vm_compute; discriminate.
Defined.

Lemma annotations_within_image_witness :
  sized_rasters village_scene /\
  exists coco self',
    create_coco_dataset village_scene (init 10) true = Ok (coco, self') /\
    forall annotation, In annotation (Coco.annotations coco) ->
      exists image,
        In image (Coco.images coco) /\
        CocoImage.id image = Annotation.image_id annotation /\
        bbox_in_image (CocoImage.width image) (CocoImage.height image)
          (Annotation.bbox annotation) /\
        exists ring,
          Annotation.segmentation annotation = [flatten_ring ring] /\
          Forall (in_image (CocoImage.width image) (CocoImage.height image)) ring.
Proof.
  assert (Hsized : sized_rasters village_scene).
  { intros path src H. simpl in H.
    destruct (_ || _); [|discriminate]. injection H as <-. simpl. lia. }
  split; [exact Hsized|].
  eexists; eexists. split; [vm_compute; reflexivity|].
  eapply (annotations_within_image village_scene 10%Q true); [exact Hsized|].
  vm_compute; reflexivity.
Defined.

Lemma interior_rings_ignored_witness :
  filter_row courtyard_scene (init 10) tile_info None 0
    {| TableRow.building := "school";
       TableRow.geometry := PGeom (Polygon house_ring_closed [courtyard_ring]) |}
  = filter_row courtyard_scene (init 10) tile_info None 0
      {| TableRow.building := "school";
         TableRow.geometry := PGeom (Polygon house_ring_closed []) |}.
Proof.
  apply (interior_rings_ignored courtyard_scene (init 10) tile_info None 0
           "school" house_ring_closed [courtyard_ring]).
  vm_compute; reflexivity.
Defined.

Lemma unparsable_row_aborts_witness :
  Env.loads broken_scene broken_wkt = None /\
  load_csv broken_scene (init 10) = Raise WKTReadingError /\
  create_coco_dataset broken_scene (init 10) true = Raise WKTReadingError.
Proof.
  split; [vm_compute; reflexivity|].
  apply (unparsable_row_aborts broken_scene (init 10) true
           (building_row "barn" broken_wkt) broken_wkt).
  - vm_compute; reflexivity.
  - vm_compute; reflexivity.
  - simpl. right. left. reflexivity.
  - reflexivity.
  - vm_compute; reflexivity.
Defined.

Lemma retained_rows_are_polygons_witness :
  exists self',
    load_csv village_scene (init 10) = Ok self' /\
    List.length (Self.df self') = 3%nat /\
    forall row, In row (Self.df self') ->
      exists raw wkt exterior interiors,
        In raw (Csv.rows (Env.read_csv village_scene)) /\
        RawRow.building raw = TableRow.building row /\
        RawRow.geometry raw = CStr wkt /\
        Env.loads village_scene wkt = Some (Polygon exterior interiors) /\
        TableRow.geometry row = PGeom (Polygon exterior interiors).
Proof.
  eexists. split; [vm_compute; reflexivity|]. split; [reflexivity|].
  eapply (retained_rows_are_polygons village_scene (init 10)).
  vm_compute; reflexivity.
Defined.

Lemma house_scenario_witness :
  exists coco self' annotation category,
    create_coco_dataset house_scene (init 10) false = Ok (coco, self') /\
    Coco.annotations coco = [annotation] /\
    Annotation.image_id annotation = 1 /\
    Annotation.bbox annotation = [10; 10; 10; 10] /\
    (Annotation.area annotation == 100)%Q /\
    In category (Coco.categories coco) /\
    Category.id category = Annotation.category_id annotation /\
    Category.name category = "house"%string.
Proof.
  apply (house_scenario house_scene false "tile.tif" house_wkt tile_raster
           {| CRS.to_epsg := Some 4326 |} house_ring_closed);
    try (vm_compute; reflexivity).
  right. reflexivity.
Defined.

(** The run is single-shot: a second run on the same object appends to
    the lists of the first, and the identifiers start again at 1. *)
Lemma second_run_repeats_ids :
  exists coco1 self1 coco2 self2,
    create_coco_dataset house_scene (init 10) false = Ok (coco1, self1) /\
    create_coco_dataset house_scene self1 false = Ok (coco2, self2) /\
    map Annotation.id (Coco.annotations coco1) = [1] /\
    map Annotation.id (Coco.annotations coco2) = [1; 1].
Proof.
  do 4 eexists. split; [vm_compute; reflexivity|].
  split; [vm_compute; reflexivity|]. split; reflexivity.
Qed.

(** ** Where the code departs from the specification *)

(** C6 as stated fails: the building with a courtyard does not abort the
    run; one annotation is emitted, and its segmentation is the exterior
    ring alone. *)
Lemma courtyard_dropped_silently :
  Env.loads courtyard_scene courtyard_wkt
  = Some (Polygon house_ring_closed [courtyard_ring]) /\
  exists coco self',
    create_coco_dataset courtyard_scene (init 10) false = Ok (coco, self') /\
    map Annotation.segmentation (Coco.annotations coco)
    = [[flatten_ring house_pixels]].
Proof.
  split; [reflexivity|].
  eexists; eexists. split; vm_compute; reflexivity.
Qed.

(** C8 as stated fails: an empty polygon has an exterior ring and no
    vertex, and [load_csv] retains it. *)
Lemma empty_polygon_retained :
  exists self' row ring,
    load_csv empty_scene (init 10) = Ok self' /\
    In row (Self.df self') /\
    exterior_coords_of (TableRow.geometry row) = Ok ring /\
    (List.length ring < 3)%nat.
Proof.
  eexists; eexists; eexists. split; [vm_compute; reflexivity|].
  split; [left; reflexivity|]. split; [reflexivity|]. simpl. lia.
Qed.

(** * Further properties of the code *)

(** ** The shoelace area *)

Lemma cross_antisym (p q : Z * Z) : cross q p = - cross p q.
Proof. unfold cross. lia. Qed.

Lemma cross_self (p : Z * Z) : cross p p = 0.
Proof. unfold cross. lia. Qed.

Lemma last_cons {A : Type} (l : list A) :
  forall x d, last (x :: l) d = last l x.
Proof.
  induction l as [|y l IH]; intros x d; [reflexivity|].
  change (last (x :: y :: l) d) with (last (y :: l) d).
  rewrite (IH y d), (IH y x). reflexivity.
Qed.

Lemma cross_sum_snoc (rest : list (Z * Z)) :
  forall p q, cross_sum p (rest ++ [q])
              = cross_sum p rest + cross (last rest p) q.
Proof.
  induction rest as [|r rest IH]; intros p q.
  - simpl. lia.
  - cbn [app cross_sum]. rewrite IH, last_cons. lia.
Qed.

Lemma ring_twice_area_chain (p0 : Z * Z) (rest : list (Z * Z)) :
  ring_twice_area (p0 :: rest)
  = chain (p0 :: rest) + cross (last rest p0) p0.
Proof.
  unfold ring_twice_area, chain. rewrite last_cons. lia.
Qed.

Lemma last_map {A B : Type} (f : A -> B) (l : list A) (d : A) :
  last (map f l) (f d) = f (last l d).
Proof.
  induction l as [|x l IH]; simpl; [reflexivity|].
  destruct l; simpl in *; [reflexivity | exact IH].
Qed.

Lemma twice_area_closing (p0 : Z * Z) (rest : list (Z * Z)) :
  ring_twice_area (p0 :: rest ++ [p0]) = ring_twice_area (p0 :: rest).
Proof.
  rewrite !ring_twice_area_chain. unfold chain.
  rewrite cross_sum_snoc, last_last, cross_self. lia.
Qed.

Lemma cross_sum_shift (dx dy : Z) (rest : list (Z * Z)) :
  forall p,
    cross_sum (shift dx dy p) (map (shift dx dy) rest)
    = cross_sum p rest
      + dy * (fst p - fst (last rest p)) + dx * (snd (last rest p) - snd p).
Proof.
  induction rest as [|q rest IH]; intros p.
  - simpl. ring.
  - cbn [map cross_sum]. rewrite IH, last_cons.
    unfold cross, shift. cbn [fst snd]. ring.
Qed.

Lemma twice_area_shift (dx dy : Z) (coords : list (Z * Z)) :
  ring_twice_area (map (shift dx dy) coords) = ring_twice_area coords.
Proof.
  destruct coords as [|p0 rest]; [reflexivity|].
  cbn [map]. rewrite !ring_twice_area_chain. unfold chain.
  rewrite cross_sum_shift, last_map.
  unfold cross, shift. cbn [fst snd]. ring.
Qed.

Lemma chain_snoc (l : list (Z * Z)) (q : Z * Z) :
  l <> [] -> chain (l ++ [q]) = chain l + cross (last l q) q.
Proof.
  destruct l as [|p rest]; [congruence|]. intros _.
  cbn [app chain]. rewrite cross_sum_snoc, last_cons. reflexivity.
Qed.

Lemma chain_rev (l : list (Z * Z)) : chain (rev l) = - chain l.
Proof.
  induction l as [|a l IH]; [reflexivity|].
  destruct l as [|b l]; [reflexivity|].
  cbn [rev] in *. rewrite chain_snoc by (destruct (rev l); discriminate).
  rewrite IH. rewrite last_last. cbn [chain cross_sum].
  rewrite (cross_antisym a b). lia.
Qed.

Lemma twice_area_ends (l : list (Z * Z)) (d : Z * Z) :
  l <> [] -> ring_twice_area l = chain l + cross (last l d) (hd d l).
Proof.
  destruct l as [|p0 rest]; [congruence|]. intros _.
  rewrite ring_twice_area_chain, last_cons. reflexivity.
Qed.

Lemma last_rev_hd {A : Type} (l : list A) (d : A) : last (rev l) d = hd d l.
Proof.
  destruct l as [|a l]; [reflexivity|]. cbn [rev hd]. apply last_last.
Qed.

Lemma hd_rev_last {A : Type} (l : list A) (d : A) : hd d (rev l) = last l d.
Proof.
  rewrite <- (rev_involutive l) at 2. rewrite last_rev_hd. reflexivity.
Qed.

Lemma twice_area_rev (coords : list (Z * Z)) :
  ring_twice_area (rev coords) = - ring_twice_area coords.
Proof.
  destruct coords as [|p0 rest]; [reflexivity|].
  rewrite (twice_area_ends (rev (p0 :: rest)) p0).
  - rewrite (twice_area_ends (p0 :: rest) p0) by discriminate.
    rewrite chain_rev, last_rev_hd, hd_rev_last.
    rewrite (cross_antisym (last (p0 :: rest) p0)). lia.
  - intros E. apply (f_equal (@List.length _)) in E.
    rewrite length_rev in E. discriminate.
Qed.

Lemma calculate_area_of_twice (coords coords' : list (Z * Z)) :
  coords <> [] -> coords' <> [] ->
  Z.abs (ring_twice_area coords') = Z.abs (ring_twice_area coords) ->
  calculate_area coords' = calculate_area coords.
Proof.
  intros H H' E. rewrite !calculate_area_ring by assumption. rewrite E.
  reflexivity.
Qed.


(** X2: the repeated closing vertex of a ring (shapely's rings end with
    their first vertex) does not change the area. *)
Theorem calculate_area_closing_vertex (p0 : Z * Z) (rest : list (Z * Z)) :
  calculate_area (p0 :: rest ++ [p0]) = calculate_area (p0 :: rest).
Proof.
  apply (calculate_area_of_twice (p0 :: rest) (p0 :: rest ++ [p0]));
    try discriminate.
  rewrite twice_area_closing. reflexivity.
Qed.

(** X3: the area does not depend on where the ring lies: moving every
    vertex by the same offset leaves [calculate_area] unchanged. *)
Theorem calculate_area_shift (dx dy : Z) (coords : list (Z * Z)) :
  calculate_area (map (shift dx dy) coords) = calculate_area coords.
Proof.
  destruct coords as [|p0 rest]; [reflexivity|].
  apply calculate_area_of_twice; try discriminate.
  rewrite twice_area_shift. reflexivity.
Qed.

(** X4: the area does not depend on the orientation of the ring:
    reversing the order of the vertices leaves [calculate_area]
    unchanged. *)
Theorem calculate_area_rev (coords : list (Z * Z)) :
  calculate_area (rev coords) = calculate_area coords.
Proof.
  destruct coords as [|p0 rest]; [reflexivity|].
  apply calculate_area_of_twice; try discriminate.
  - intros E. apply (f_equal (@List.length _)) in E.
    rewrite length_rev in E. discriminate.
  - rewrite twice_area_rev. apply Z.abs_opp.
Qed.

Lemma cross_sum_column (c : Z) (rest : list (Z * Z)) :
  forall p, fst p = c -> Forall (fun q => fst q = c) rest ->
    cross_sum p rest = c * (snd (last rest p) - snd p).
Proof.
  induction rest as [|q rest IH]; intros p Hp H.
  - simpl. ring.
  - inversion H as [|? ? Hq Hrest]; subst.
    cbn [cross_sum]. rewrite (IH q Hq Hrest), last_cons.
    unfold cross. rewrite Hq. ring.
Qed.

Lemma cross_sum_row (c : Z) (rest : list (Z * Z)) :
  forall p, snd p = c -> Forall (fun q => snd q = c) rest ->
    cross_sum p rest = c * (fst p - fst (last rest p)).
Proof.
  induction rest as [|q rest IH]; intros p Hp H.
  - simpl. ring.
  - inversion H as [|? ? Hq Hrest]; subst.
    cbn [cross_sum]. rewrite (IH q Hq Hrest), last_cons.
    unfold cross. rewrite Hq. ring.
Qed.

Lemma last_Forall {A : Type} (P : A -> Prop) (l : list A) :
  forall d, P d -> Forall P l -> P (last l d).
Proof.
  induction l as [|x l IH]; intros d Hd H; [exact Hd|].
  rewrite last_cons. inversion H; subst. apply IH; assumption.
Qed.

Lemma twice_area_degenerate (p0 : Z * Z) (rest : list (Z * Z)) :
  Forall (fun q => fst q = fst p0) rest \/ Forall (fun q => snd q = snd p0) rest ->
  ring_twice_area (p0 :: rest) = 0.
Proof.
  intros [H|H]; rewrite ring_twice_area_chain; unfold chain.
  - rewrite (cross_sum_column (fst p0)) by auto.
    pose proof (last_Forall _ rest p0 eq_refl H) as Hl. cbv beta in Hl.
    unfold cross. rewrite Hl. ring.
  - rewrite (cross_sum_row (snd p0)) by auto.
    pose proof (last_Forall _ rest p0 eq_refl H) as Hl. cbv beta in Hl.
    unfold cross. rewrite Hl. ring.
Qed.

(** X5: a ring whose vertices all lie in one pixel column, or all in one
    pixel row (a polygon squeezed onto an edge of the image by the
    clamping, or smaller than a pixel), has area 0, and so fails the
    area test of the filter for every non-negative threshold. *)
Theorem calculate_area_degenerate (p0 : Z * Z) (rest : list (Z * Z))
    (min_area : Q) :
  Forall (fun q => fst q = fst p0) rest \/ Forall (fun q => snd q = snd p0) rest ->
  (0 <= min_area)%Q ->
  exists area,
    calculate_area (p0 :: rest) = Ok area /\
    (area == 0)%Q /\
    Qgt_bool area min_area = false.
Proof.
  intros H Hmin. rewrite calculate_area_ring by discriminate.
  rewrite (twice_area_degenerate _ _ H).
  eexists. split; [reflexivity|]. split; [reflexivity|].
  destruct (Qgt_bool _ min_area) eqn:E; [|reflexivity].
  apply Qgt_bool_true in E. exfalso.
  apply (Qlt_not_le _ _ E).
  assert (Hz : ((1 # 2) * inject_Z (Z.abs 0) == 0)%Q) by reflexivity.
  rewrite Hz. exact Hmin.
Qed.

Lemma calculate_area_degenerate_witness :
  exists area,
    calculate_area [(640, 3); (640, 10); (640, 7); (640, 3)] = Ok area /\
    (area == 0)%Q /\
    Qgt_bool area 10 = false.
Proof.
  apply (calculate_area_degenerate (640, 3) [(640, 10); (640, 7); (640, 3)] 10).
  - left. repeat constructor.
  - vm_compute. discriminate.
Defined.


(** ** Bounding box and segmentation *)

Lemma np_min_le_all (xs : list Z) :
  forall x v, In v (x :: xs) -> np_min x xs <= v.
Proof.
  unfold np_min. induction xs as [|a xs IH]; intros x v Hin.
  - destruct Hin as [Hx|[]]. simpl. lia.
  - cbn [fold_left]. destruct Hin as [Hx|[Ha|Hin]].
    + pose proof (np_min_le_first xs (Z.min x a)) as H. unfold np_min in H. lia.
    + pose proof (np_min_le_first xs (Z.min x a)) as H. unfold np_min in H. lia.
    + apply IH. right. exact Hin.
Qed.

Lemma np_max_ge_all (xs : list Z) :
  forall x v, In v (x :: xs) -> v <= np_max x xs.
Proof.
  unfold np_max. induction xs as [|a xs IH]; intros x v Hin.
  - destruct Hin as [Hx|[]]. simpl. lia.
  - cbn [fold_left]. destruct Hin as [Hx|[Ha|Hin]].
    + pose proof (np_max_ge_first xs (Z.max x a)) as H. unfold np_max in H. lia.
    + pose proof (np_max_ge_first xs (Z.max x a)) as H. unfold np_max in H. lia.
    + apply IH. right. exact Hin.
Qed.

Lemma np_min_In (xs : list Z) : forall x, In (np_min x xs) (x :: xs).
Proof.
  unfold np_min. induction xs as [|a xs IH]; intros x; [left; reflexivity|].
  cbn [fold_left]. destruct (IH (Z.min x a)) as [H|H].
  - rewrite <- H. destruct (Z.min_spec x a) as [[_ ->]|[_ ->]];
      [left | right; left]; reflexivity.
  - right. right. exact H.
Qed.

Lemma np_max_In (xs : list Z) : forall x, In (np_max x xs) (x :: xs).
Proof.
  unfold np_max. induction xs as [|a xs IH]; intros x; [left; reflexivity|].
  cbn [fold_left]. destruct (IH (Z.max x a)) as [H|H].
  - rewrite <- H. destruct (Z.max_spec x a) as [[_ ->]|[_ ->]];
      [right; left | left]; reflexivity.
  - right. right. exact H.
Qed.

(** X7: [get_bbox_from_coords] raises [ValueError] on an empty ring; on a
    non-empty ring it returns the tight box of the vertices: sides are
    not negative, every vertex lies in the box, and each of its four
    sides passes through a vertex. *)
Theorem get_bbox_is_tight :
  get_bbox_from_coords [] = Raise ValueError /\
  forall p0 rest,
    exists x_min y_min w h,
      get_bbox_from_coords (p0 :: rest) = Ok [x_min; y_min; w; h] /\
      0 <= w /\ 0 <= h /\
      Forall (fun p => x_min <= fst p <= x_min + w /\
                       y_min <= snd p <= y_min + h) (p0 :: rest) /\
      In x_min (map fst (p0 :: rest)) /\ In (x_min + w) (map fst (p0 :: rest)) /\
      In y_min (map snd (p0 :: rest)) /\ In (y_min + h) (map snd (p0 :: rest)).
Proof.
  split; [reflexivity|]. intros [x0 y0] rest.
  do 4 eexists. split; [reflexivity|].
  pose proof (np_min_le_first (map fst rest) x0).
  pose proof (np_max_ge_first (map fst rest) x0).
  pose proof (np_min_le_first (map snd rest) y0).
  pose proof (np_max_ge_first (map snd rest) y0).
  split; [lia|]. split; [lia|]. split.
  - apply Forall_forall. intros p Hp.
    assert (Hx : In (fst p) (x0 :: map fst rest)).
    { change (x0 :: map fst rest) with (map fst ((x0, y0) :: rest)).
      apply in_map. exact Hp. }
    assert (Hy : In (snd p) (y0 :: map snd rest)).
    { change (y0 :: map snd rest) with (map snd ((x0, y0) :: rest)).
      apply in_map. exact Hp. }
    pose proof (np_min_le_all _ _ _ Hx). pose proof (np_max_ge_all _ _ _ Hx).
    pose proof (np_min_le_all _ _ _ Hy). pose proof (np_max_ge_all _ _ _ Hy).
    lia.
  - cbn [map fst snd].
    replace (np_min x0 (map fst rest) + (np_max x0 (map fst rest) - np_min x0 (map fst rest)))
      with (np_max x0 (map fst rest)) by lia.
    replace (np_min y0 (map snd rest) + (np_max y0 (map snd rest) - np_min y0 (map snd rest)))
      with (np_max y0 (map snd rest)) by lia.
    repeat split; first [apply np_min_In | apply np_max_In].
Qed.

Lemma unflatten_flatten (coords : list (Z * Z)) :
  unflatten (flatten_ring coords) = coords.
Proof.
  induction coords as [|[x y] coords IH]; [reflexivity|].
  change (flatten_ring ((x, y) :: coords)) with (x :: y :: flatten_ring coords).
  cbn [unflatten]. rewrite IH. reflexivity.
Qed.

(** X8: [get_segmentation_from_coords] returns one flat ring, twice as
    long as the vertex list, from which the vertices are read back in
    order: nothing is dropped, repeated or reordered. *)
Theorem segmentation_round_trip (coords : list (Z * Z)) :
  exists flat,
    get_segmentation_from_coords coords = [flat] /\
    List.length flat = (2 * List.length coords)%nat /\
    unflatten flat = coords.
Proof.
  exists (flatten_ring coords). split; [apply get_segmentation_flat|].
  split; [|apply unflatten_flatten].
  induction coords as [|p coords IH]; [reflexivity|].
  change (flatten_ring (p :: coords))
    with (fst p :: snd p :: flatten_ring coords).
  cbn [List.length]. rewrite IH. lia.
Qed.

(** ** The projector *)





Lemma py_int_monotone (q q' : Q) : (q <= q')%Q -> py_int q <= py_int q'.
Proof.
  intros H.
  destruct (Qlt_le_dec q 0) as [Hq|Hq].
  - destruct (Qlt_le_dec 0 q') as [Hq'|Hq'].
    + rewrite (py_int_nonpos q) by (apply Qlt_le_weak; exact Hq).
      rewrite (py_int_nonneg q') by (apply Qlt_le_weak; exact Hq').
      transitivity 0.
      * change 0 with (Qceiling 0). apply Qceiling_resp_le.
        apply Qlt_le_weak. exact Hq.
      * change 0 with (Qfloor 0). apply Qfloor_resp_le.
        apply Qlt_le_weak. exact Hq'.
    + rewrite (py_int_nonpos q) by (apply Qlt_le_weak; exact Hq).
      rewrite (py_int_nonpos q') by exact Hq'.
      apply Qceiling_resp_le. exact H.
  - rewrite (py_int_nonneg q) by exact Hq.
    rewrite (py_int_nonneg q') by (eapply Qle_trans; eassumption).
    apply Qfloor_resp_le. exact H.
Qed.



Lemma Qdiv_le_pos (u v w : Q) : (0 < w)%Q -> (u <= v)%Q -> (u / w <= v / w)%Q.
Proof.
  intros Hw H. unfold Qdiv. apply Qmult_le_compat_r; [exact H|].
  apply Qlt_le_weak. apply Qinv_lt_0_compat. exact Hw.
Qed.

Lemma Qdiv_le_neg (u v w : Q) : (w < 0)%Q -> (u <= v)%Q -> (v / w <= u / w)%Q.
Proof.
  intros Hw H.
  assert (Hnz : ~ (w == 0)%Q).
  { intros E. rewrite E in Hw. apply (Qlt_irrefl 0). exact Hw. }
  assert (Hpos : (0 < - w)%Q).
  { apply (Qplus_lt_l _ _ w). ring_simplify. exact Hw. }
  assert (E1 : (v / w == (- v) / (- w))%Q) by (field; exact Hnz).
  assert (E2 : (u / w == (- u) / (- w))%Q) by (field; exact Hnz).
  rewrite E1, E2. apply Qdiv_le_pos; [exact Hpos|].
  apply Qopp_le_compat. exact H.
Qed.

(** X11: on a north-up raster ([a > 0], [e < 0]) read without
    reprojection, [geographic_to_pixel] keeps the order of points: a
    point further east never gets a smaller column, and a point further
    north never gets a larger row. *)
Theorem geographic_to_pixel_monotone (transform : Affine.t)
    (lon lat lon' lat' : Q) (col row col' row' : Z) :
  (0 < Affine.a transform)%Q ->
  (Affine.e transform < 0)%Q ->
  geographic_to_pixel lon lat transform None = Ok (col, row) ->
  geographic_to_pixel lon' lat' transform None = Ok (col', row') ->
  (lon <= lon')%Q -> (lat <= lat')%Q ->
  col <= col' /\ row' <= row.
Proof.
  intros Ha He H H' Hlon Hlat.
  assert (Hna : ~ (Affine.a transform == 0)%Q).
  { intros E. rewrite E in Ha. apply (Qlt_irrefl 0). exact Ha. }
  assert (Hne : ~ (Affine.e transform == 0)%Q).
  { intros E. rewrite E in He. apply (Qlt_irrefl 0). exact He. }
  unfold geographic_to_pixel in H, H'. cbn [reproject] in H, H'.
  rewrite (true_div_Ok _ _ Hna) in H. rewrite (true_div_Ok _ _ Hna) in H'.
  cbn [bind] in H, H'.
  rewrite (true_div_Ok _ _ Hne) in H. rewrite (true_div_Ok _ _ Hne) in H'.
  cbn [bind] in H, H'.
  injection H as <- <-. injection H' as <- <-. split.
  - apply py_int_monotone. apply Qdiv_le_pos; [exact Ha|].
    apply Qplus_le_l. exact Hlon.
  - apply py_int_monotone. apply Qdiv_le_neg; [exact He|].
    apply Qplus_le_l. exact Hlat.
Qed.

Lemma geographic_to_pixel_monotone_witness :
  geographic_to_pixel 10 620 tile_transform None = Ok (10, 20) /\
  geographic_to_pixel 20 630 tile_transform None = Ok (20, 10) /\
  10 <= 20 /\ 10 <= 20.
Proof.
  split; [reflexivity|]. split; [reflexivity|].
  apply (geographic_to_pixel_monotone tile_transform 10 620 20 630 10 20 20 10);
    try (vm_compute; reflexivity); vm_compute; discriminate.
Defined.

(** ** The rasterizer, the clamping and the bounds test *)




Lemma np_clip_idempotent (v lo hi : Z) :
  np_clip (np_clip v lo hi) lo hi = np_clip v lo hi.
Proof. unfold np_clip. lia. Qed.

Lemma np_clip_monotone (v v' lo hi : Z) :
  v <= v' -> np_clip v lo hi <= np_clip v' lo hi.
Proof. unfold np_clip. lia. Qed.

(** X13: the two clamping assignments of the filter act vertex by
    vertex, keeping the number and order of the vertices; clamping is
    idempotent (clamping a clamped ring changes nothing) and monotone in
    each coordinate (it never swaps two vertices along an axis). *)
Theorem clip_coords_idempotent_monotone (width height : Z) :
  (forall ring,
      clip_coords ring width height = map (clamp_vertex width height) ring /\
      clip_coords (clip_coords ring width height) width height
      = clip_coords ring width height) /\
  (forall p p',
      (fst p <= fst p' ->
       fst (clamp_vertex width height p) <= fst (clamp_vertex width height p')) /\
      (snd p <= snd p' ->
       snd (clamp_vertex width height p) <= snd (clamp_vertex width height p'))).
Proof.
  split.
  - intros ring. rewrite !clip_coords_map. split; [reflexivity|].
    rewrite map_map. apply map_ext. intros p. cbn [fst snd].
    rewrite !np_clip_idempotent. reflexivity.
  - intros p p'. unfold clamp_vertex. cbn [fst snd].
    split; apply np_clip_monotone.
Qed.

Lemma np_max_lt_iff (xs : list Z) (x bound : Z) :
  np_max x xs < bound <-> Forall (fun v => v < bound) (x :: xs).
Proof.
  split.
  - intros H. apply Forall_forall. intros v Hv.
    pose proof (np_max_ge_all xs x v Hv). lia.
  - intros H. rewrite Forall_forall in H. apply H. apply np_max_In.
Qed.

Lemma np_min_gt_iff (xs : list Z) (x bound : Z) :
  np_min x xs > bound <-> Forall (fun v => v > bound) (x :: xs).
Proof.
  split.
  - intros H. apply Forall_forall. intros v Hv.
    pose proof (np_min_le_all xs x v Hv). lia.
  - intros H. rewrite Forall_forall in H. apply H. apply np_min_In.
Qed.

(** X14: the bounds test of the filter rejects a projected ring exactly
    when all its vertices lie strictly left of the image, or all strictly
    right of it, or all strictly above it, or all strictly below it; in
    particular a ring with one vertex in the image is never rejected. *)
Theorem outside_image_iff (x0 y0 : Z) (rest : list (Z * Z)) (width height : Z) :
  (outside_image x0 y0 rest width height = true
   <-> (Forall (fun p => fst p < 0) ((x0, y0) :: rest) \/
        Forall (fun p => fst p > width) ((x0, y0) :: rest) \/
        Forall (fun p => snd p < 0) ((x0, y0) :: rest) \/
        Forall (fun p => snd p > height) ((x0, y0) :: rest))) /\
  (Exists (in_image width height) ((x0, y0) :: rest) ->
   outside_image x0 y0 rest width height = false).
Proof.
  assert (Hiff : outside_image x0 y0 rest width height = true
   <-> (Forall (fun p => fst p < 0) ((x0, y0) :: rest) \/
        Forall (fun p => fst p > width) ((x0, y0) :: rest) \/
        Forall (fun p => snd p < 0) ((x0, y0) :: rest) \/
        Forall (fun p => snd p > height) ((x0, y0) :: rest))).
  { unfold outside_image. rewrite !orb_true_iff.
    rewrite !Z.ltb_lt, !Z.gtb_gt.
    rewrite !np_max_lt_iff, !np_min_gt_iff.
    change (x0 :: map fst rest) with (map fst ((x0, y0) :: rest)).
    change (y0 :: map snd rest) with (map snd ((x0, y0) :: rest)).
    rewrite !Forall_map. tauto. }
  split; [exact Hiff|].
  intros Hex. apply Bool.not_true_is_false. intros E.
  apply Exists_exists in Hex. destruct Hex as (p & Hp & (Hx & Hy)).
  apply (proj1 Hiff) in E. rewrite !Forall_forall in E.
  destruct E as [E|[E|[E|E]]]; specialize (E p Hp); lia.
Qed.

(** ** The filter over the table *)

Lemma range_sorted (n : nat) : forall lo, StronglySorted Z.lt (range lo (lo + Z.of_nat n)).
Proof.
  induction n as [|n IH]; intros lo.
  - rewrite range_nil by lia. constructor.
  - rewrite range_cons by lia.
    replace (lo + Z.of_nat (S n)) with (lo + 1 + Z.of_nat n) by lia.
    constructor; [apply IH|].
    apply Forall_forall. intros v Hv. unfold range in Hv.
    apply in_map_iff in Hv. destruct Hv as (k & <- & _). lia.
Qed.

Lemma combine_range_nth {A : Type} (l : list A) :
  forall lo i x,
    In (i, x) (combine (range lo (lo + Z.of_nat (List.length l))) l) ->
    lo <= i < lo + Z.of_nat (List.length l) /\
    nth_error l (Z.to_nat (i - lo)) = Some x.
Proof.
  induction l as [|a l IH]; intros lo i x H.
  - simpl in H. rewrite range_nil in H by lia. contradiction.
  - cbn [List.length] in *. rewrite range_cons in H by lia.
    replace (lo + Z.of_nat (S (List.length l)))
      with (lo + 1 + Z.of_nat (List.length l)) in * by lia.
    destruct H as [[= <- <-]|H].
    + split; [lia|]. rewrite Z.sub_diag. reflexivity.
    + apply IH in H. destruct H as (Hi & Hnth). split; [lia|].
      replace (Z.to_nat (i - lo)) with (S (Z.to_nat (i - (lo + 1)))) by lia.
      exact Hnth.
Qed.

Lemma enumerate_nth {A : Type} (l : list A) (i : Z) (x : A) :
  In (i, x) (enumerate l) ->
  0 <= i < Z.of_nat (List.length l) /\ nth_error l (Z.to_nat i) = Some x.
Proof.
  unfold enumerate. intros H.
  apply (combine_range_nth l 0) in H. rewrite Z.sub_0_r in H. exact H.
Qed.

Lemma enumerate_fst {A : Type} (l : list A) :
  map fst (enumerate l) = range 0 (Z.of_nat (List.length l)).
Proof.
  unfold enumerate.
  assert (H : forall (ks : list Z), List.length ks = List.length l ->
                map fst (combine ks l) = ks).
  { induction l as [|x l IH]; intros [|k ks] Hlen; simpl in *;
      try reflexivity; try discriminate.
    f_equal. apply IH. lia. }
  apply H. rewrite range_length. lia.
Qed.

Lemma filter_rows_sorted (env : Env.t) (self : Self.t) (image_info : ImageInfo.t)
    (transformer : option Transformer) (rows : list (Z * TableRow.t)) :
  StronglySorted Z.lt (map fst rows) ->
  forall valid_polygons result,
    filter_rows env self image_info transformer rows valid_polygons = Ok result ->
    exists kept,
      result = valid_polygons ++ kept /\
      (List.length kept <= List.length rows)%nat /\
      StronglySorted Z.lt (map ValidPolygon.original_idx kept) /\
      Forall (fun entry => In (ValidPolygon.original_idx entry) (map fst rows)) kept.
Proof.
  induction rows as [|[idx row] rows IH]; intros Hsorted valid_polygons result H.
  - simpl in H. injection H as <-. exists []. rewrite app_nil_r.
    repeat split; constructor.
  - cbn [filter_rows] in H. inv_bind H.
    cbn [map fst] in Hsorted. inversion Hsorted as [|? ? Hs Hlt]; subst.
    apply (IH Hs) in H. destruct H as (kept & -> & Hlen & Hk & Hin).
    assert (Hin' : Forall (fun entry => In (ValidPolygon.original_idx entry)
                                          (map fst ((idx, row) :: rows))) kept).
    { eapply Forall_impl; [|exact Hin]. intros e He. right. exact He. }
    destruct v as [entry|].
    + apply filter_row_Some in Hv. destruct Hv as (_ & _ & Hidx).
      exists (entry :: kept). rewrite <- app_assoc.
      split; [reflexivity|]. split; [simpl; lia|]. split.
      * cbn [map]. constructor; [exact Hk|]. rewrite Hidx.
        apply Forall_map. eapply Forall_impl; [|exact Hin].
        intros e He. cbv beta. rewrite Forall_forall in Hlt. apply Hlt. exact He.
      * constructor; [left; exact (eq_sym Hidx) | exact Hin'].
    + exists kept. split; [reflexivity|]. split; [simpl; lia|]. auto.
Qed.

Lemma filter_table_order (env : Env.t) (self : Self.t)
    (image_info : ImageInfo.t) (valid_polygons : list ValidPolygon.t) :
  filter_valid_polygons_for_image env self image_info = Ok valid_polygons ->
  StronglySorted Z.lt (map ValidPolygon.original_idx valid_polygons) /\
  (List.length valid_polygons <= List.length (Self.df self))%nat /\
  Forall (fun entry =>
            exists row,
              nth_error (Self.df self)
                (Z.to_nat (ValidPolygon.original_idx entry)) = Some row /\
              0 <= ValidPolygon.original_idx entry /\
              ValidPolygon.building entry = TableRow.building row)
    valid_polygons.
Proof.
  intros H. pose proof (filter_valid_polygons_spec env self image_info _ H) as Hspec.
  unfold filter_valid_polygons_for_image in H. inv_bind H.
  apply filter_rows_sorted in H.
  - destruct H as (kept & -> & Hlen & Hsorted & _). cbn [app] in *.
    split; [exact Hsorted|]. split.
    + rewrite <- (length_map snd (enumerate (Self.df self))), enumerate_snd in Hlen.
      exact Hlen.
    + eapply Forall_impl; [|exact Hspec].
      intros entry (_ & idx & row & Hin & Hb & Hi).
      apply enumerate_nth in Hin. destruct Hin as (Hrange & Hnth).
      exists row. rewrite Hi. split; [exact Hnth|]. split; [lia | exact Hb].
  - rewrite enumerate_fst.
    apply (range_sorted (List.length (Self.df self)) 0).
Qed.


(** X15: the polygons that [filter_valid_polygons_for_image] keeps come
    in table order: their [original_idx] are strictly increasing
    positions of [self.df], so a row is kept at most once and never more
    rows are kept than the table has; each kept entry carries the label
    of the row at its index. *)
Theorem filter_keeps_table_order (env : Env.t) (self : Self.t)
    (image_info : ImageInfo.t) (valid_polygons : list ValidPolygon.t) :
  filter_valid_polygons_for_image env self image_info = Ok valid_polygons ->
  StronglySorted Z.lt (map ValidPolygon.original_idx valid_polygons) /\
  (List.length valid_polygons <= List.length (Self.df self))%nat /\
  Forall (fun entry =>
            exists row,
              nth_error (Self.df self)
                (Z.to_nat (ValidPolygon.original_idx entry)) = Some row /\
              0 <= ValidPolygon.original_idx entry /\
              ValidPolygon.building entry = TableRow.building row)
    valid_polygons.
Proof. apply filter_table_order. Qed.

Lemma filter_keeps_table_order_witness :
  exists valid_polygons,
    filter_valid_polygons_for_image village_scene three_rows_self tile_info
    = Ok valid_polygons /\
    map ValidPolygon.original_idx valid_polygons = [0; 2] /\
    StronglySorted Z.lt (map ValidPolygon.original_idx valid_polygons).
Proof.
  eexists. split; [vm_compute; reflexivity|]. split; [reflexivity|].
  apply (fun H => proj1 (filter_keeps_table_order village_scene three_rows_self
                           tile_info _ H)).
  vm_compute. reflexivity.
Defined.

(** ** Loading the images *)

Lemma load_images_loop_opened (env : Env.t) (files : list (Z * string)) :
  forall images_info coco_images,
    load_images_loop env files images_info coco_images
    = (images_info ++ opened_infos env files,
       coco_images ++ map coco_image_of (opened_infos env files)).
Proof.
  induction files as [|[idx image_path] rest IH]; intros images_info coco_images.
  - simpl. rewrite !app_nil_r. reflexivity.
  - cbn [load_images_loop opened_infos flat_map fst snd].
    destruct (Env.rasterio_open env image_path) as [src|].
    + rewrite IH. cbn [app map]. rewrite <- !app_assoc. reflexivity.
    + rewrite IH. reflexivity.
Qed.

Lemma load_images_opened (env : Env.t) (self : Self.t) :
  Self.images_info (load_images env self)
  = opened_infos env (enumerate (Env.image_files env)) /\
  Coco.images (Self.coco_format (load_images env self))
  = Coco.images (Self.coco_format self)
    ++ map coco_image_of (opened_infos env (enumerate (Env.image_files env))) /\
  Coco.annotations (Self.coco_format (load_images env self))
  = Coco.annotations (Self.coco_format self) /\
  Coco.categories (Self.coco_format (load_images env self))
  = Coco.categories (Self.coco_format self) /\
  Self.annotation_mapping (load_images env self) = Self.annotation_mapping self /\
  Self.min_area (load_images env self) = Self.min_area self.
Proof.
  unfold load_images. rewrite load_images_loop_opened. cbn [app].
  repeat split.
Qed.

Lemma opened_infos_In (env : Env.t) (files : list (Z * string))
    (image_info : ImageInfo.t) :
  In image_info (opened_infos env files) <->
  exists idx image_path src,
    In (idx, image_path) files /\
    Env.rasterio_open env image_path = Some src /\
    image_info = image_info_of env idx image_path src.
Proof.
  unfold opened_infos. rewrite in_flat_map. split.
  - intros ([idx image_path] & Hin & H). cbn [fst snd] in H.
    destruct (Env.rasterio_open env image_path) as [src|] eqn:E; [|contradiction].
    destruct H as [<-|[]]. exists idx, image_path, src. auto.
  - intros (idx & image_path & src & Hin & E & ->).
    exists (idx, image_path). split; [exact Hin|]. cbn [fst snd].
    rewrite E. left. reflexivity.
Qed.

Lemma opened_infos_sorted (env : Env.t) (files : list (Z * string)) :
  StronglySorted Z.lt (map fst files) ->
  StronglySorted Z.lt (map ImageInfo.id (opened_infos env files)).
Proof.
  induction files as [|[idx image_path] rest IH]; intros H; [constructor|].
  cbn [map fst] in H. inversion H as [|? ? Hs Hlt]; subst.
  cbn [opened_infos flat_map fst snd].
  destruct (Env.rasterio_open env image_path) as [src|]; [|apply IH; exact Hs].
  cbn [app map]. constructor; [apply IH; exact Hs|].
  apply Forall_map. apply Forall_forall. intros i Hi.
  apply opened_infos_In in Hi.
  destruct Hi as (idx' & path' & src' & Hin & _ & ->). cbn [ImageInfo.id image_info_of].
  rewrite Forall_forall in Hlt.
  specialize (Hlt idx' (in_map fst _ _ Hin)). lia.
Qed.

Lemma enumerate_In_nth {A : Type} (l : list A) (i : nat) (x : A) :
  nth_error l i = Some x -> In (Z.of_nat i, x) (enumerate l).
Proof.
  unfold enumerate.
  assert (H : forall lo (l : list A) i x,
             nth_error l i = Some x ->
             In (lo + Z.of_nat i, x)
                (combine (range lo (lo + Z.of_nat (List.length l))) l)).
  { clear. intros lo l. revert lo.
    induction l as [|a l IH]; intros lo i x Hnth; [destruct i; discriminate|].
    cbn [List.length]. rewrite range_cons by lia.
    replace (lo + Z.of_nat (S (List.length l)))
      with (lo + 1 + Z.of_nat (List.length l)) by lia.
    destruct i as [|i]; cbn [nth_error] in Hnth.
    - injection Hnth as <-. left. f_equal. lia.
    - right. replace (lo + Z.of_nat (S i)) with (lo + 1 + Z.of_nat i) by lia.
      apply IH. exact Hnth. }
  intros Hnth. apply (H 0 l i x Hnth).
Qed.

(** X16: [load_images] gives every file that opens the identifier
    "position in the sorted folder scan plus one": the identifiers of
    [images_info] are strictly increasing (hence distinct), each record
    holds the path at its position and the size, CRS, transform and
    bounds rasterio reported; a file that fails to open is skipped and
    its identifier left unused, and every file that opens is loaded. *)
Theorem load_images_ids (env : Env.t) (self : Self.t) :
  StronglySorted Z.lt
    (map ImageInfo.id (Self.images_info (load_images env self))) /\
  Forall (fun image_info =>
            exists src,
              1 <= ImageInfo.id image_info /\
              nth_error (Env.image_files env)
                (Z.to_nat (ImageInfo.id image_info - 1))
              = Some (ImageInfo.path image_info) /\
              Env.rasterio_open env (ImageInfo.path image_info) = Some src /\
              image_info
              = image_info_of env (ImageInfo.id image_info - 1)
                  (ImageInfo.path image_info) src)
    (Self.images_info (load_images env self)) /\
  (forall i image_path src,
      nth_error (Env.image_files env) i = Some image_path ->
      Env.rasterio_open env image_path = Some src ->
      In (image_info_of env (Z.of_nat i) image_path src)
         (Self.images_info (load_images env self))) /\
  (List.length (Self.images_info (load_images env self))
   <= List.length (Env.image_files env))%nat.
Proof.
  destruct (load_images_opened env self) as (-> & _).
  split; [|split; [|split]].
  - apply opened_infos_sorted. rewrite enumerate_fst.
    apply (range_sorted (List.length (Env.image_files env)) 0).
  - apply Forall_forall. intros image_info Hin.
    apply opened_infos_In in Hin.
    destruct Hin as (idx & image_path & src & Hin & Hopen & ->).
    apply enumerate_nth in Hin. destruct Hin as (Hrange & Hnth).
    exists src. cbn [image_info_of ImageInfo.id ImageInfo.path].
    replace (idx + 1 - 1) with idx by lia. repeat split; auto. lia.
  - intros i image_path src Hnth Hopen. apply opened_infos_In.
    exists (Z.of_nat i), image_path, src. split; [|auto].
    apply enumerate_In_nth. exact Hnth.
  - assert (Hlen : forall files,
               (List.length (opened_infos env files) <= List.length files)%nat).
    { induction files as [|[idx image_path] rest IH]; [simpl; lia|].
      cbn [opened_infos flat_map fst snd]. fold (opened_infos env rest).
      destruct (Env.rasterio_open env image_path); rewrite length_app;
        cbn [List.length]; lia. }
    specialize (Hlen (enumerate (Env.image_files env))).
    rewrite <- (length_map snd (enumerate (Env.image_files env))) in Hlen.
    rewrite enumerate_snd in Hlen. exact Hlen.
Qed.

(** X17: [load_images] appends to [coco_format["images"]] one entry per
    loaded record, with the same identifier, size and file name, and
    touches nothing else of the dataset; since [images_info] is reset
    but the COCO list is not, calling it a second time leaves
    [images_info] as it was and lists every image twice. *)
Theorem load_images_coco_entries (env : Env.t) (self : Self.t) :
  let loaded := load_images env self in
  Coco.images (Self.coco_format loaded)
  = Coco.images (Self.coco_format self)
    ++ map coco_image_of (Self.images_info loaded) /\
  Coco.annotations (Self.coco_format loaded)
  = Coco.annotations (Self.coco_format self) /\
  Coco.categories (Self.coco_format loaded)
  = Coco.categories (Self.coco_format self) /\
  Self.images_info (load_images env loaded) = Self.images_info loaded /\
  Coco.images (Self.coco_format (load_images env loaded))
  = Coco.images (Self.coco_format self)
    ++ map coco_image_of (Self.images_info loaded)
    ++ map coco_image_of (Self.images_info loaded).
Proof.
  cbv zeta.
  destruct (load_images_opened env (load_images env self))
    as (Hi2 & Hc2 & _).
  destruct (load_images_opened env self) as (Hi & Hc & Ha & Hcat & _).
  rewrite Hi2, Hc2, Hc, Hi, Ha, Hcat, <- app_assoc. auto.
Qed.

(** ** Loading the table *)



Lemma unique_from_spec (l : list string) :
  forall seen,
    NoDup (unique_from seen l) /\
    forall x, In x (unique_from seen l) <-> (In x l /\ ~ In x seen).
Proof.
  induction l as [|s l IH]; intros seen.
  - simpl. split; [constructor|]. intros x. tauto.
  - cbn [unique_from].
    destruct (existsb (String.eqb s) seen) eqn:E.
    + destruct (IH seen) as (Hnd & Hin). split; [exact Hnd|].
      intros x. rewrite Hin. cbn [In]. split; [tauto|].
      intros ([<-|Hx] & Hns); [|tauto].
      exfalso. apply Hns. apply existsb_exists in E.
      destruct E as (y & Hy & Heq). apply String.eqb_eq in Heq. subst. exact Hy.
    + assert (Hs : ~ In s seen).
      { intros Hs. apply Bool.not_true_iff_false in E. apply E.
        apply existsb_exists. exists s. split; [exact Hs | apply String.eqb_refl]. }
      destruct (IH (s :: seen)) as (Hnd & Hin). split.
      * constructor; [|exact Hnd]. rewrite Hin. cbn [In]. tauto.
      * intros x. cbn [In]. rewrite Hin. cbn [In].
        destruct (string_dec s x) as [->|Hne]; tauto.
Qed.

Lemma dict_set_absent {V : Type} (k : string) (v : V) (d : dict V) :
  ~ In k (map fst d) -> dict_set k v d = d ++ [(k, v)].
Proof.
  induction d as [|[k' v'] d IH]; intros H; [reflexivity|].
  cbn [dict_set]. destruct (String.eqb k k') eqn:E.
  - apply String.eqb_eq in E. subst. exfalso. apply H. left. reflexivity.
  - cbn [app]. f_equal. apply IH. intros Hin. apply H. right. exact Hin.
Qed.

Lemma make_categories_fold (entries : list (Z * string)) :
  forall cats,
    NoDup (map fst cats ++ map snd entries) ->
    fold_left (fun cats entry => dict_set (snd entry) (fst entry + 1) cats)
      entries cats
    = cats ++ map (fun entry => (snd entry, fst entry + 1)) entries.
Proof.
  induction entries as [|[idx name] entries IH]; intros cats H.
  - simpl. rewrite app_nil_r. reflexivity.
  - cbn [fold_left map fst snd] in *.
    rewrite dict_set_absent.
    + rewrite IH.
      * rewrite <- app_assoc. reflexivity.
      * rewrite map_app, <- app_assoc. exact H.
    + apply NoDup_remove_2 in H. intros Hin. apply H.
      apply in_or_app. left. exact Hin.
Qed.

Lemma make_categories_enumerate (names : list string) :
  NoDup names ->
  make_categories names
  = map (fun entry => (snd entry, fst entry + 1)) (enumerate names).
Proof.
  intros H. unfold make_categories. rewrite make_categories_fold; [reflexivity|].
  cbn [map app]. rewrite enumerate_snd. exact H.
Qed.

Lemma dict_get_NoDup {V : Type} (d : dict V) (k : string) (v : V) :
  NoDup (map fst d) -> (dict_get k d = Ok v <-> In (k, v) d).
Proof.
  intros Hnd. split; [apply dict_get_In|].
  induction d as [|[k' v'] d IH]; [contradiction|].
  cbn [map fst] in Hnd. inversion Hnd as [|? ? Hk Hd]; subst.
  intros [[= -> ->]|Hin]; cbn [dict_get].
  - rewrite String.eqb_refl. reflexivity.
  - destruct (String.eqb k k') eqn:E; [|apply IH; assumption].
    apply String.eqb_eq in E. subst. exfalso. apply Hk.
    apply (in_map fst) in Hin. exact Hin.
Qed.

Lemma range_shift (lo hi : Z) :
  map (fun i => i + 1) (range lo hi) = range (lo + 1) (hi + 1).
Proof.
  unfold range. rewrite map_map.
  replace (hi + 1 - (lo + 1)) with (hi - lo) by lia.
  apply map_ext. intros k. lia.
Qed.

(** X19: after [load_csv] the category table holds exactly the distinct
    labels of the retained rows, in order of first appearance, numbered
    1, 2, ..., K; the lookup of a label returns its position plus one
    and misses every other string; and the same categories, in the same
    order, are appended to [coco_format["categories"]].  Labels of rows
    dropped by the geometry filter get no category. *)
Theorem categories_first_seen (env : Env.t) (self self' : Self.t) :
  load_csv env self = Ok self' ->
  let names := unique (map TableRow.building (Self.df self')) in
  map fst (Self.categories self') = names /\
  map snd (Self.categories self') = range 1 (1 + Z.of_nat (List.length names)) /\
  NoDup names /\
  (forall label, In label names
                 <-> exists row, In row (Self.df self') /\ TableRow.building row = label) /\
  (forall label id,
      dict_get label (Self.categories self') = Ok id
      <-> 1 <= id /\ nth_error names (Z.to_nat (id - 1)) = Some label) /\
  Coco.categories (Self.coco_format self')
  = Coco.categories (Self.coco_format self)
    ++ map (fun item => {| Category.id := snd item;
                           Category.name := fst item;
                           Category.supercategory := "building" |})
         (Self.categories self').
Proof.
  unfold load_csv. intros H.
  destruct (negb _ || negb _); [discriminate|].
  inv_bind H. injection H as <-.
  cbn [Self.df Self.categories Self.coco_format Coco.categories].
  set (df := filter valid_mask v).
  set (names := unique (map TableRow.building df)). cbv zeta.
  destruct (unique_from_spec (map TableRow.building df) []) as (Hnd & Hin).
  fold (unique (map TableRow.building df)) in Hnd, Hin. fold names in Hnd, Hin.
  rewrite (make_categories_enumerate names Hnd).
  assert (Hkeys : map fst (map (fun entry : Z * string => (snd entry, fst entry + 1))
                             (enumerate names)) = names).
  { rewrite map_map. cbn [fst]. apply enumerate_snd. }
  split; [exact Hkeys|]. split.
  { rewrite map_map. cbn [snd].
    rewrite <- (map_map fst (fun i => i + 1)), enumerate_fst, range_shift.
    f_equal. lia. }
  split; [exact Hnd|]. split.
  { intros label. rewrite Hin. rewrite in_map_iff. cbn [In]. split.
    - intros ((row & Hb & Hrow) & _). eauto.
    - intros (row & Hrow & Hb). split; [eauto | tauto]. }
  split; [|reflexivity].
  intros label id. rewrite dict_get_NoDup by (rewrite Hkeys; exact Hnd).
  rewrite in_map_iff. split.
  - intros ([idx name] & [= <- <-] & Hentry). cbn [fst snd].
    apply enumerate_nth in Hentry. destruct Hentry as (Hrange & Hnth).
    split; [lia|]. replace (idx + 1 - 1) with idx by lia. exact Hnth.
  - intros (Hid & Hnth). exists (id - 1, label). cbn [fst snd].
    split; [f_equal; lia|].
    replace (id - 1) with (Z.of_nat (Z.to_nat (id - 1))) at 1 by lia.
    apply enumerate_In_nth. exact Hnth.
Qed.

Lemma categories_first_seen_witness :
  exists self',
    load_csv village_scene (init 10) = Ok self' /\
    Self.categories self' = [("house"%string, 1); ("school"%string, 2)] /\
    map fst (Self.categories self')
    = unique (map TableRow.building (Self.df self')).
Proof.
  eexists. split; [vm_compute; reflexivity|]. split; [reflexivity|].
  apply (fun H => proj1 (categories_first_seen village_scene (init 10) _ H)).
  vm_compute. reflexivity.
Defined.

(** ** The records of a run *)

Lemma annotate_polygons_records (image_info : ImageInfo.t)
    (valid_polygons : list ValidPolygon.t) :
  forall self annotation_id self' annotation_id',
    annotate_polygons self image_info valid_polygons annotation_id
    = Ok (self', annotation_id') ->
    exists records,
      Coco.annotations (Self.coco_format self')
      = Coco.annotations (Self.coco_format self) ++ map fst records /\
      Self.annotation_mapping self'
      = Self.annotation_mapping self ++ map snd records /\
      Forall2 (fun polygon_data record =>
                 recorded (Self.categories self) image_info polygon_data
                   (fst record) (snd record)) valid_polygons records.
Proof.
  induction valid_polygons as [|polygon_data rest IH];
    intros self annotation_id self' annotation_id' H.
  - simpl in H. injection H as <- <-. exists []. cbn [map].
    rewrite !app_nil_r. repeat split. constructor.
  - cbn [annotate_polygons] in H.
    inv_bind H. rename v into bbox, Hv into Hbbox.
    inv_bind H. rename v into area, Hv into Harea.
    inv_bind H. rename v into category_id, Hv into Hcat.
    apply IH in H. destruct H as (records & Hanns & Hmaps & Hall).
    cbn [append_annotation Self.coco_format Coco.annotations
         Self.annotation_mapping Self.categories] in Hanns, Hmaps, Hall.
    rewrite <- app_assoc in Hanns, Hmaps.
    eexists ((_, _) :: records). cbn [map fst snd].
    split; [exact Hanns|]. split; [exact Hmaps|].
    constructor; [|exact Hall]. cbn [fst snd]. repeat split; assumption.
Qed.

Lemma StronglySorted_app {A : Type} (R : A -> A -> Prop) (l1 l2 : list A) :
  StronglySorted R l1 -> StronglySorted R l2 ->
  (forall a b, In a l1 -> In b l2 -> R a b) ->
  StronglySorted R (l1 ++ l2).
Proof.
  intros H1 H2 H. induction H1 as [|a l1 Hs IH Ha]; [exact H2|].
  cbn [app]. constructor.
  - apply IH. intros x y Hx Hy. apply H; [right; exact Hx | exact Hy].
  - apply Forall_app. split; [exact Ha|].
    apply Forall_forall. intros b Hb. apply H; [left; reflexivity | exact Hb].
Qed.

Lemma Forall2_length_eq {A B : Type} (R : A -> B -> Prop) (l : list A) (l' : list B) :
  Forall2 R l l' -> List.length l = List.length l'.
Proof. induction 1; simpl; congruence. Qed.

(** The keys of the records of one image are sorted when the kept
    polygons are. *)
Lemma block_keys_sorted (categories : dict Z) (image_info : ImageInfo.t)
    (valid_polygons : list ValidPolygon.t)
    (records : list (Annotation.t * Mapping.t)) :
  Forall2 (fun polygon_data record =>
             recorded categories image_info polygon_data (fst record) (snd record))
    valid_polygons records ->
  map (fun record => mapping_key (snd record)) records
  = map (fun polygon_data =>
           (ImageInfo.id image_info, ValidPolygon.original_idx polygon_data))
      valid_polygons.
Proof.
  induction 1 as [|vp r vps rs Hr _ IH]; [reflexivity|].
  cbn [map]. rewrite IH. f_equal.
  destruct Hr as (_ & _ & _ & Hi & _ & Hp & _).
  unfold mapping_key. rewrite Hi, Hp. reflexivity.
Qed.

Lemma same_image_sorted (id : Z) (idxs : list Z) :
  StronglySorted Z.lt idxs ->
  StronglySorted pair_lt (map (fun idx => (id, idx)) idxs).
Proof.
  induction 1 as [|i idxs Hs IH Hi]; [constructor|].
  cbn [map]. constructor; [exact IH|].
  apply Forall_map. eapply Forall_impl; [|exact Hi].
  intros j Hj. right. cbn [fst snd]. split; [reflexivity | exact Hj].
Qed.

Lemma process_images_records (env : Env.t) (images : list ImageInfo.t) :
  forall self annotation_id self' annotation_id',
    process_images env self images annotation_id = Ok (self', annotation_id') ->
    exists records,
      Coco.annotations (Self.coco_format self')
      = Coco.annotations (Self.coco_format self) ++ map fst records /\
      Self.annotation_mapping self'
      = Self.annotation_mapping self ++ map snd records /\
      Forall (fun record =>
                exists image_info polygon_data row,
                  In image_info images /\
                  recorded (Self.categories self) image_info polygon_data
                    (fst record) (snd record) /\
                  survives (Self.min_area self) image_info polygon_data /\
                  nth_error (Self.df self)
                    (Z.to_nat (ValidPolygon.original_idx polygon_data)) = Some row /\
                  0 <= ValidPolygon.original_idx polygon_data /\
                  ValidPolygon.building polygon_data = TableRow.building row)
        records /\
      (List.length records
       <= List.length images * List.length (Self.df self))%nat /\
      (StronglySorted Z.lt (map ImageInfo.id images) ->
       StronglySorted pair_lt
         (map (fun record => mapping_key (snd record)) records)).
Proof.
  induction images as [|image_info rest IH];
    intros self annotation_id self' annotation_id' H.
  - simpl in H. injection H as <- <-. exists []. cbn [map].
    rewrite !app_nil_r. repeat split; try constructor; simpl; lia.
  - cbn [process_images] in H.
    inv_bind H. rename v into valid_polygons, Hv into Hfilter.
    inv_bind H. destruct v as [self1 id1]. rename Hv into Hann.
    pose proof (filter_valid_polygons_spec env self image_info _ Hfilter) as Hsurv.
    pose proof (filter_table_order env self image_info _ Hfilter)
      as (Hsorted & Hlen & Hrows).
    pose proof (annotate_polygons_spec image_info valid_polygons _ _ _ _ Hann)
      as ((Hm & _ & Hd & Hc & _) & _).
    apply annotate_polygons_records in Hann.
    destruct Hann as (block & Hanns1 & Hmaps1 & Hblock).
    apply IH in H.
    destruct H as (records & Hanns2 & Hmaps2 & Hall & Hcount & Hkeys).
    rewrite Hm, Hd, Hc in Hall. rewrite Hd in Hcount.
    exists (block ++ records). rewrite !map_app.
    split; [rewrite Hanns2, Hanns1, app_assoc; reflexivity|].
    split; [rewrite Hmaps2, Hmaps1, app_assoc; reflexivity|].
    split; [|split].
    + apply Forall_app. split.
      * clear - Hblock Hsurv Hrows.
        induction Hblock as [|vp r vps rs Hr _ IHb]; [constructor|].
        inversion Hsurv as [|? ? (Hs & _) Hsurv']; subst.
        inversion Hrows as [|? ? (row & Hnth & H0 & Hb) Hrows']; subst.
        constructor; [|apply IHb; assumption].
        exists image_info, vp, row. split; [left; reflexivity|]. auto.
      * eapply Forall_impl; [|exact Hall].
        intros r (img & vp & row & Hin & H). exists img, vp, row.
        split; [right; exact Hin | exact H].
    + rewrite length_app. rewrite <- (Forall2_length_eq _ _ _ Hblock).
      cbn [List.length]. lia.
    + intros Hids. cbn [map] in Hids. inversion Hids as [|? ? Hs Hlt]; subst.
      apply StronglySorted_app.
      * rewrite (block_keys_sorted _ _ _ _ Hblock).
        rewrite <- (map_map ValidPolygon.original_idx
                            (fun idx => (ImageInfo.id image_info, idx))).
        apply same_image_sorted. exact Hsorted.
      * apply Hkeys. exact Hs.
      * intros a b Ha Hb. left.
        rewrite (block_keys_sorted _ _ _ _ Hblock) in Ha.
        apply in_map_iff in Ha. destruct Ha as (vp & <- & _). cbn [fst].
        apply in_map_iff in Hb. destruct Hb as (r & <- & Hr).
        rewrite Forall_forall in Hall.
        destruct (Hall r Hr) as (img & vp' & row & Hin & Hrec & _).
        destruct Hrec as (_ & _ & _ & Hi & _).
        unfold mapping_key. cbn [fst]. rewrite Hi.
        rewrite Forall_forall in Hlt. apply Hlt. apply in_map. exact Hin.
Qed.

Lemma load_csv_frame (env : Env.t) (self loaded : Self.t) :
  load_csv env self = Ok loaded ->
  Self.min_area loaded = Self.min_area self /\
  Self.images_info loaded = Self.images_info self /\
  Self.annotation_mapping loaded = Self.annotation_mapping self /\
  Coco.images (Self.coco_format loaded) = Coco.images (Self.coco_format self) /\
  Coco.annotations (Self.coco_format loaded)
  = Coco.annotations (Self.coco_format self) /\
  Coco.categories (Self.coco_format loaded)
  = Coco.categories (Self.coco_format self)
    ++ category_infos (Self.categories loaded).
Proof.
  unfold load_csv. intros H. destruct (negb _ || negb _); [discriminate|].
  inv_bind H. injection H as <-. cbn. repeat split.
Qed.

Lemma convert_all_tiff_to_jpg_frame (env : Env.t) (self : Self.t) :
  Self.min_area (convert_all_tiff_to_jpg env self) = Self.min_area self /\
  Self.df (convert_all_tiff_to_jpg env self) = Self.df self /\
  Self.categories (convert_all_tiff_to_jpg env self) = Self.categories self /\
  Self.annotation_mapping (convert_all_tiff_to_jpg env self)
  = Self.annotation_mapping self.
Proof.
  unfold convert_all_tiff_to_jpg.
  destruct (convert_loop env _ _ _) as [coco_images images_info].
  cbn. repeat split.
Qed.

(** What a completed run, from any object, has done. *)
Lemma run_records (env : Env.t) (self : Self.t) (convert_tiff : bool)
    (coco : Coco.t) (self' : Self.t) :
  create_coco_dataset env self convert_tiff = Ok (coco, self') ->
  exists loaded records,
    load_csv env (load_images env self) = Ok loaded /\
    coco = Self.coco_format self' /\
    Coco.annotations coco
    = Coco.annotations (Self.coco_format self) ++ map fst records /\
    Self.annotation_mapping self'
    = Self.annotation_mapping self ++ map snd records /\
    map Annotation.id (map fst records)
    = range 1 (1 + Z.of_nat (List.length records)) /\
    Coco.categories coco = Coco.categories (Self.coco_format loaded) /\
    map image_dims (Coco.images coco)
    = map image_dims (Coco.images (Self.coco_format loaded)) /\
    Self.df self' = Self.df loaded /\
    Self.categories self' = Self.categories loaded /\
    Forall (fun record =>
              exists image_info polygon_data row,
                In image_info (Self.images_info loaded) /\
                recorded (Self.categories loaded) image_info polygon_data
                  (fst record) (snd record) /\
                survives (Self.min_area self) image_info polygon_data /\
                nth_error (Self.df loaded)
                  (Z.to_nat (ValidPolygon.original_idx polygon_data)) = Some row /\
                0 <= ValidPolygon.original_idx polygon_data /\
                ValidPolygon.building polygon_data = TableRow.building row)
      records /\
    (List.length records
     <= List.length (Self.images_info loaded) * List.length (Self.df loaded))%nat /\
    StronglySorted pair_lt (map (fun record => mapping_key (snd record)) records).
Proof.
  unfold create_coco_dataset. intros H.
  inv_bind H. rename v into loaded, Hv into Hcsv.
  inv_bind H. destruct v as [assembled_self last_id]. rename Hv into Hloop.
  pose proof (load_csv_frame env _ _ Hcsv) as (Hm & Hi & Hmap & Hci & Hca & Hcc).
  destruct (load_images_opened env self) as (Hinfos & _ & Hanns0 & _ & Hmap0 & Hm0).
  pose proof (process_images_spec env _ _ _ _ _ Hloop)
    as ((Hm1 & Hi1 & Hd1 & Hc1 & Hci1 & Hcc1) & Hle & emitted & Hanns & Hids & _).
  apply process_images_records in Hloop.
  destruct Hloop as (records & Hanns' & Hmaps & Hall & Hcount & Hkeys).
  assert (Hemitted : emitted = map fst records).
  { rewrite Hanns in Hanns'. apply app_inv_head in Hanns'. exact Hanns'. }
  subst emitted.
  assert (Hfinal :
    coco = Self.coco_format self' /\
    Coco.annotations coco = Coco.annotations (Self.coco_format assembled_self) /\
    Coco.categories coco = Coco.categories (Self.coco_format assembled_self) /\
    map image_dims (Coco.images coco)
    = map image_dims (Coco.images (Self.coco_format assembled_self)) /\
    Self.annotation_mapping self' = Self.annotation_mapping assembled_self /\
    Self.df self' = Self.df assembled_self /\
    Self.categories self' = Self.categories assembled_self).
  { destruct convert_tiff; injection H as <- <-.
    - destruct (convert_all_tiff_to_jpg_spec env assembled_self) as (-> & -> & ->).
      destruct (convert_all_tiff_to_jpg_frame env assembled_self) as (_ & -> & -> & ->).
      repeat split.
    - repeat split. }
  destruct Hfinal as (Hco & Ha & Hc & Hd & Hmp & Hdf & Hcat).
  exists loaded, records.
  split; [exact Hcsv|]. split; [exact Hco|].
  split; [rewrite Ha, Hanns', Hca, Hanns0; reflexivity|].
  split; [rewrite Hmp, Hmaps, Hmap, Hmap0; reflexivity|].
  split.
  { rewrite Hids. f_equal.
    apply (f_equal (@List.length Z)) in Hids.
    rewrite !length_map, range_length in Hids. lia. }
  split; [rewrite Hc, Hcc1; reflexivity|].
  split; [rewrite Hd, Hci1; reflexivity|].
  split; [rewrite Hdf, Hd1; reflexivity|].
  split; [rewrite Hcat, Hc1; reflexivity|].
  split; [rewrite Hm, Hm0 in Hall; exact Hall|].
  split; [exact Hcount|].
  apply Hkeys. rewrite Hi, Hinfos.
  apply opened_infos_sorted. rewrite enumerate_fst.
  apply (range_sorted (List.length (Env.image_files env)) 0).
Qed.

(** X20: after a complete run on a fresh object the traceability list
    runs parallel to the annotations: the i-th mapping record carries the
    identifier, image, category, box and area of the i-th annotation;
    its category name is the label that the category table maps to that
    category identifier; its [polygon_csv_idx] is a position of the
    filtered table [self.df] whose row has that label; and every
    annotation has [iscrowd] 0. *)
Theorem mapping_mirrors_annotations (env : Env.t) (min_area : Q)
    (convert_tiff : bool) (coco : Coco.t) (self' : Self.t) :
  create_coco_dataset env (init min_area) convert_tiff = Ok (coco, self') ->
  Forall2 (fun annotation mapping =>
             Mapping.annotation_id mapping = Annotation.id annotation /\
             Mapping.image_id mapping = Annotation.image_id annotation /\
             Mapping.category_id mapping = Annotation.category_id annotation /\
             Mapping.bbox mapping = Annotation.bbox annotation /\
             Mapping.area mapping = Annotation.area annotation /\
             Annotation.iscrowd annotation = 0 /\
             dict_get (Mapping.category_name mapping) (Self.categories self')
             = Ok (Mapping.category_id mapping) /\
             exists row,
               nth_error (Self.df self')
                 (Z.to_nat (Mapping.polygon_csv_idx mapping)) = Some row /\
               TableRow.building row = Mapping.category_name mapping)
    (Coco.annotations coco) (Self.annotation_mapping self').
Proof.
  intros H. apply run_records in H.
  destruct H as (loaded & records & _ & _ & Hanns & Hmaps & _ & _ & _ & Hdf &
                 Hcat & Hall & _).
  cbn [init Self.coco_format Coco.annotations Self.annotation_mapping app]
    in Hanns, Hmaps.
  rewrite Hanns, Hmaps, Hdf, Hcat. clear - Hall.
  induction Hall as [|r records Hr _ IH]; [constructor|].
  cbn [map]. constructor; [|exact IH].
  destruct Hr as (image_info & polygon_data & row & _ & Hrec & _ & Hnth & _ & Hb).
  destruct Hrec as ((Hid & _ & _ & Hget & _) & Hcrowd & Hmid & Hmimg & _ & Hidx &
                    Hname & Hmcat & Hmbbox & Hmarea).
  repeat split; try assumption.
  - rewrite Hmimg, Hid. reflexivity.
  - rewrite Hname, Hmcat. exact Hget.
  - exists row. rewrite Hidx, Hname. auto.
Qed.

Lemma mapping_mirrors_annotations_witness :
  exists coco self',
    create_coco_dataset village_scene (init 10) true = Ok (coco, self') /\
    map Mapping.annotation_id (Self.annotation_mapping self')
    = map Annotation.id (Coco.annotations coco) /\
    Forall2 (fun annotation mapping =>
               Mapping.annotation_id mapping = Annotation.id annotation /\
               Mapping.image_id mapping = Annotation.image_id annotation /\
               Mapping.category_id mapping = Annotation.category_id annotation /\
               Mapping.bbox mapping = Annotation.bbox annotation /\
               Mapping.area mapping = Annotation.area annotation /\
               Annotation.iscrowd annotation = 0 /\
               dict_get (Mapping.category_name mapping) (Self.categories self')
               = Ok (Mapping.category_id mapping) /\
               exists row,
                 nth_error (Self.df self')
                   (Z.to_nat (Mapping.polygon_csv_idx mapping)) = Some row /\
                 TableRow.building row = Mapping.category_name mapping)
      (Coco.annotations coco) (Self.annotation_mapping self').
Proof.
  eexists; eexists. split; [vm_compute; reflexivity|]. split; [reflexivity|].
  apply (mapping_mirrors_annotations village_scene 10%Q true).
  vm_compute. reflexivity.
Defined.

(** X21: after a complete run on a fresh object the mapping records (and
    with them the annotations) come tile by tile in ascending image
    identifier and, within a tile, in ascending row position: their
    (image_id, polygon_csv_idx) keys are strictly increasing, so no
    (tile, row) pair is annotated twice. *)
Theorem annotations_in_tile_then_row_order (env : Env.t) (min_area : Q)
    (convert_tiff : bool) (coco : Coco.t) (self' : Self.t) :
  create_coco_dataset env (init min_area) convert_tiff = Ok (coco, self') ->
  StronglySorted pair_lt (map mapping_key (Self.annotation_mapping self')).
Proof.
  intros H. apply run_records in H.
  destruct H as (loaded & records & _ & _ & _ & Hmaps & _ & _ & _ & _ & _ & _ &
                 _ & Hsorted).
  cbn [init Self.annotation_mapping app] in Hmaps.
  rewrite Hmaps, map_map. exact Hsorted.
Qed.

Lemma annotations_in_tile_then_row_order_witness :
  exists coco self',
    create_coco_dataset village_scene (init 10) true = Ok (coco, self') /\
    map mapping_key (Self.annotation_mapping self')
    = [(1, 0); (1, 1); (1, 2); (2, 0); (2, 1); (2, 2)] /\
    StronglySorted pair_lt (map mapping_key (Self.annotation_mapping self')).
Proof.
  eexists; eexists. split; [vm_compute; reflexivity|]. split; [reflexivity|].
  eapply (annotations_in_tile_then_row_order village_scene 10%Q true).
  vm_compute. reflexivity.
Defined.

(** X22: a complete run on a fresh object emits at most one annotation
    per loaded image and retained row: the number of annotations is at
    most the number of images times the length of [self.df]. *)
Theorem annotation_count_bound (env : Env.t) (min_area : Q)
    (convert_tiff : bool) (coco : Coco.t) (self' : Self.t) :
  create_coco_dataset env (init min_area) convert_tiff = Ok (coco, self') ->
  (List.length (Coco.annotations coco)
   <= List.length (Coco.images coco) * List.length (Self.df self'))%nat.
Proof.
  intros H. apply run_records in H.
  destruct H as (loaded & records & Hcsv & _ & Hanns & _ & _ & _ & Himgs & Hdf &
                 _ & _ & Hcount & _).
  cbn [init Self.coco_format Coco.annotations app] in Hanns.
  rewrite Hanns, length_map, Hdf.
  apply (f_equal (@List.length _)) in Himgs. rewrite !length_map in Himgs.
  rewrite Himgs.
  pose proof (load_csv_frame env _ _ Hcsv) as (_ & Hi & _ & Hci & _).
  destruct (load_images_opened env (init min_area)) as (Hinfos & Hcoco & _).
  rewrite Hci, Hcoco. rewrite Hi, Hinfos in Hcount.
  cbn [init Self.coco_format Coco.images app]. rewrite length_map. exact Hcount.
Qed.

Lemma annotation_count_bound_witness :
  exists coco self',
    create_coco_dataset village_scene (init 10) true = Ok (coco, self') /\
    List.length (Coco.annotations coco) = 6%nat /\
    List.length (Coco.images coco) = 2%nat /\
    List.length (Self.df self') = 3%nat /\
    (List.length (Coco.annotations coco)
     <= List.length (Coco.images coco) * List.length (Self.df self'))%nat.
Proof.
  eexists; eexists. split; [vm_compute; reflexivity|].
  split; [reflexivity|]. split; [reflexivity|]. split; [reflexivity|].
  apply (annotation_count_bound village_scene 10%Q true).
  vm_compute. reflexivity.
Defined.

(** X23: the run is not re-entrant.  A complete run on any object keeps
    what its lists held and appends: the new annotations are numbered
    from 1 again (whatever was there), the new mapping records follow the
    old ones, every loaded image is listed once more and every category
    of the freshly built table is appended again. *)
Theorem run_appends_to_existing_lists (env : Env.t) (self : Self.t)
    (convert_tiff : bool) (coco : Coco.t) (self' : Self.t) :
  create_coco_dataset env self convert_tiff = Ok (coco, self') ->
  exists new_annotations new_mappings,
    Coco.annotations coco
    = Coco.annotations (Self.coco_format self) ++ new_annotations /\
    map Annotation.id new_annotations
    = range 1 (1 + Z.of_nat (List.length new_annotations)) /\
    Self.annotation_mapping self'
    = Self.annotation_mapping self ++ new_mappings /\
    List.length new_mappings = List.length new_annotations /\
    Coco.categories coco
    = Coco.categories (Self.coco_format self)
      ++ category_infos (Self.categories self') /\
    map image_dims (Coco.images coco)
    = map image_dims (Coco.images (Self.coco_format self))
      ++ map info_dims (Self.images_info (load_images env self)).
Proof.
  intros H. apply run_records in H.
  destruct H as (loaded & records & Hcsv & _ & Hanns & Hmaps & Hids & Hcats &
                 Himgs & _ & Hcat & _).
  exists (map fst records), (map snd records).
  split; [exact Hanns|]. split; [rewrite length_map; exact Hids|].
  split; [exact Hmaps|]. split; [rewrite !length_map; reflexivity|].
  pose proof (load_csv_frame env _ _ Hcsv) as (_ & _ & _ & Hci & _ & Hcc).
  destruct (load_images_opened env self) as (_ & Hcoco & _ & Hcat0 & _).
  split.
  - rewrite Hcats, Hcc, Hcat0, Hcat. reflexivity.
  - rewrite Himgs, Hci, Hcoco, map_app, map_map.
    destruct (load_images_opened env self) as (-> & _).
    reflexivity.
Qed.

Lemma run_appends_to_existing_lists_witness :
  exists coco1 self1 coco2 self2,
    create_coco_dataset house_scene (init 10) false = Ok (coco1, self1) /\
    create_coco_dataset house_scene self1 false = Ok (coco2, self2) /\
    map Annotation.id (Coco.annotations coco2) = [1; 1] /\
    exists new_annotations new_mappings,
      Coco.annotations coco2
      = Coco.annotations (Self.coco_format self1) ++ new_annotations /\
      map Annotation.id new_annotations
      = range 1 (1 + Z.of_nat (List.length new_annotations)) /\
      Self.annotation_mapping self2
      = Self.annotation_mapping self1 ++ new_mappings /\
      List.length new_mappings = List.length new_annotations /\
      Coco.categories coco2
      = Coco.categories (Self.coco_format self1)
        ++ category_infos (Self.categories self2) /\
      map image_dims (Coco.images coco2)
      = map image_dims (Coco.images (Self.coco_format self1))
        ++ map info_dims (Self.images_info (load_images house_scene self1)).
Proof.
  do 4 eexists. split; [vm_compute; reflexivity|].
  split; [vm_compute; reflexivity|]. split; [reflexivity|].
  apply (run_appends_to_existing_lists house_scene _ false).
  vm_compute. reflexivity.
Defined.

(** ** What a run can raise *)







Lemma process_images_crs (env : Env.t) (images : list ImageInfo.t) :
  forall self annotation_id final,
    process_images env self images annotation_id = Ok final ->
    Forall (fun image_info => ImageInfo.crs image_info <> None) images.
Proof.
  induction images as [|image_info rest IH]; intros self annotation_id final H;
    [constructor|].
  cbn [process_images] in H. inv_bind H. inv_bind H. destruct v0 as [self1 id1].
  constructor; [|eapply IH; exact H].
  unfold filter_valid_polygons_for_image, setup_coordinate_transformer in Hv.
  destruct (ImageInfo.crs image_info); [discriminate | discriminate Hv].
Qed.

(** X25: a run completes only if every image that opened has a CRS.
    The folder scan also takes .jpg and .png files; one such file
    without georeferencing makes the whole run raise, whatever the
    table holds. *)
Theorem complete_run_needs_crs (env : Env.t) (self : Self.t)
    (convert_tiff : bool) (coco : Coco.t) (self' : Self.t) :
  create_coco_dataset env self convert_tiff = Ok (coco, self') ->
  forall image_path src,
    In image_path (Env.image_files env) ->
    Env.rasterio_open env image_path = Some src ->
    Raster.crs src <> None.
Proof.
  unfold create_coco_dataset. intros H image_path src Hin Hopen.
  inv_bind H. rename v into loaded, Hv into Hcsv. inv_bind H.
  pose proof (load_csv_frame env _ _ Hcsv) as (_ & Hi & _).
  destruct (load_images_opened env self) as (Hinfos & _).
  apply process_images_crs in Hv. rewrite Hi, Hinfos in Hv.
  rewrite Forall_forall in Hv.
  apply In_nth_error in Hin. destruct Hin as (i & Hnth).
  specialize (Hv (image_info_of env (Z.of_nat i) image_path src)).
  apply Hv. apply opened_infos_In.
  exists (Z.of_nat i), image_path, src. split; [|auto].
  apply enumerate_In_nth. exact Hnth.
Qed.

Lemma complete_run_needs_crs_witness :
  exists coco self',
    create_coco_dataset house_scene (init 10) false = Ok (coco, self') /\
    Raster.crs tile_raster <> None.
Proof.
  eexists; eexists. split; [vm_compute; reflexivity|].
  refine (complete_run_needs_crs house_scene (init 10) false _ _ _
            "tile.tif" tile_raster _ _);
    [vm_compute; reflexivity | left; reflexivity | reflexivity].
Defined.

(** ** The TIFF conversion *)

Lemma rename_image_info_dims (full_path jpg_path new_filename : string)
    (images_info : list ImageInfo.t) :
  map info_dims (rename_image_info full_path jpg_path new_filename images_info)
  = map info_dims images_info.
Proof.
  induction images_info as [|img_info rest IH]; [reflexivity|].
  cbn [rename_image_info].
  destruct (String.eqb (ImageInfo.path img_info) full_path); cbn [map].
  - reflexivity.
  - rewrite IH. reflexivity.
Qed.

Lemma converted_entry_refl (env : Env.t) (image : CocoImage.t) :
  converted_entry env image image.
Proof. unfold converted_entry. auto 10. Qed.

Lemma convert_loop_entries (env : Env.t) (todo : list CocoImage.t) :
  forall done images_info done' images_info',
    convert_loop env todo done images_info = (done', images_info') ->
    exists converted,
      done' = done ++ converted /\
      Forall2 (converted_entry env) todo converted /\
      map info_dims images_info' = map info_dims images_info.
Proof.
  induction todo as [|image_info rest IH];
    intros done images_info done' images_info' H.
  - cbn [convert_loop] in H. injection H as <- <-. exists [].
    rewrite app_nil_r. repeat split. constructor.
  - cbn [convert_loop] in H.
    assert (Hskip : convert_loop env rest (done ++ [image_info]) images_info
                    = (done', images_info') ->
                    exists converted,
                      done' = done ++ converted /\
                      Forall2 (converted_entry env) (image_info :: rest) converted /\
                      map info_dims images_info' = map info_dims images_info).
    { intros Hs. apply IH in Hs. destruct Hs as (converted & -> & Hall & Hdims).
      exists (image_info :: converted). rewrite <- app_assoc.
      split; [reflexivity|]. split; [|exact Hdims].
      constructor; [apply converted_entry_refl | exact Hall]. }
    destruct (Env.is_tiff env (CocoImage.file_name image_info)) eqn:Htiff; [|auto].
    destruct (find_full_path _ _) as [full_path|]; [|auto].
    destruct (truthy full_path); [|auto].
    destruct (Env.tiff_to_jpg env full_path) as [jpg_path|] eqn:Hconv;
      [|auto].
    destruct (truthy jpg_path); [|auto].
    apply IH in H. destruct H as (converted & -> & Hall & Hdims).
    eexists (_ :: converted). rewrite <- app_assoc.
    split; [reflexivity|]. split.
    + constructor; [|exact Hall]. unfold converted_entry. cbn.
      repeat split. right. split; [exact Htiff|]. eauto.
    + rewrite Hdims. apply rename_image_info_dims.
Qed.

Lemma convert_loop_no_tiff (env : Env.t) (todo : list CocoImage.t) :
  Forall (fun image => Env.is_tiff env (CocoImage.file_name image) = false) todo ->
  forall done images_info,
    convert_loop env todo done images_info = (done ++ todo, images_info).
Proof.
  induction 1 as [|image_info rest Hno _ IH]; intros done images_info.
  - cbn [convert_loop]. rewrite app_nil_r. reflexivity.
  - cbn [convert_loop]. rewrite Hno, IH, <- app_assoc. reflexivity.
Qed.

Lemma convert_all_entries (env : Env.t) (self : Self.t) :
  let converted := convert_all_tiff_to_jpg env self in
  Forall2 (converted_entry env)
    (Coco.images (Self.coco_format self))
    (Coco.images (Self.coco_format converted)) /\
  map info_dims (Self.images_info converted)
  = map info_dims (Self.images_info self) /\
  Coco.annotations (Self.coco_format converted)
  = Coco.annotations (Self.coco_format self) /\
  Coco.categories (Self.coco_format converted)
  = Coco.categories (Self.coco_format self) /\
  Self.annotation_mapping converted = Self.annotation_mapping self /\
  Self.df converted = Self.df self /\
  Self.categories converted = Self.categories self /\
  (Forall (fun image => Env.is_tiff env (CocoImage.file_name image) = false)
     (Coco.images (Self.coco_format self)) ->
   converted = self).
Proof.
  cbv zeta. unfold convert_all_tiff_to_jpg.
  destruct (convert_loop env (Coco.images (Self.coco_format self)) []
              (Self.images_info self)) as [coco_images images_info] eqn:E.
  pose proof (convert_loop_entries env _ _ _ _ _ E) as (converted & -> & Hall & Hdims).
  cbn. repeat split; try assumption.
  intros Hno. rewrite (convert_loop_no_tiff env _ Hno) in E.
  injection E as <- <-. destruct self as [m i d c a [ci ca cc]]. reflexivity.
Qed.

(** X26: [convert_all_tiff_to_jpg] only renames.  Entry by entry the
    image list keeps its length, order, identifiers, sizes and licence,
    and a file name changes only for a TIFF entry whose conversion
    succeeded, to the base name of the converted file; the loaded image
    records keep their identifiers and sizes; annotations, categories,
    table and mapping are untouched (the mapping keeps the TIFF file
    names).  When no entry is a TIFF name the object is unchanged. *)
Theorem convert_all_only_renames (env : Env.t) (self : Self.t) :
  let converted := convert_all_tiff_to_jpg env self in
  Forall2 (converted_entry env)
    (Coco.images (Self.coco_format self))
    (Coco.images (Self.coco_format converted)) /\
  map info_dims (Self.images_info converted)
  = map info_dims (Self.images_info self) /\
  Coco.annotations (Self.coco_format converted)
  = Coco.annotations (Self.coco_format self) /\
  Coco.categories (Self.coco_format converted)
  = Coco.categories (Self.coco_format self) /\
  Self.annotation_mapping converted = Self.annotation_mapping self /\
  Self.df converted = Self.df self /\
  Self.categories converted = Self.categories self /\
  (Forall (fun image => Env.is_tiff env (CocoImage.file_name image) = false)
     (Coco.images (Self.coco_format self)) ->
   converted = self).
Proof. apply convert_all_entries. Qed.


Lemma rsplit_dot_none (s : string) : has_dot s = false -> rsplit_dot s = None.
Proof.
  induction s as [|ch rest IH]; [reflexivity|]. cbn [has_dot rsplit_dot].
  intros H. apply orb_false_iff in H. destruct H as (Hch & Hrest).
  rewrite (IH Hrest), Hch. reflexivity.
Qed.

Lemma rsplit_dot_app (stem ext : string) :
  has_dot ext = false ->
  rsplit_dot (stem ++ String "."%char ext) = Some (stem, ext).
Proof.
  intros H. induction stem as [|ch stem IH].
  - cbn [String.append rsplit_dot]. rewrite (rsplit_dot_none ext H).
    reflexivity.
  - cbn [String.append rsplit_dot]. rewrite IH. reflexivity.
Qed.

Lemma truthy_append_jpg (s : string) : truthy (s ++ ".jpg") = true.
Proof. destruct s; reflexivity. Qed.

(** X28: the JPEG path of [convert_tiff_to_jpg] replaces what follows the
    last dot of the path by "jpg": for a path [stem.ext] whose extension
    holds no dot it is [stem.jpg], also when the stem itself holds dots;
    a path without any dot just gets ".jpg" appended.  When the function
    returns a path, it is that path, PIL has saved it, and it is never
    the empty string. *)
Theorem jpg_path_replaces_extension :
  (forall stem ext,
      has_dot ext = false ->
      jpg_path_of (stem ++ String "."%char ext) = (stem ++ ".jpg")%string) /\
  (forall path, has_dot path = false -> jpg_path_of path = (path ++ ".jpg")%string) /\
  (forall pil_save tiff_path jpg_path,
      convert_tiff_to_jpg pil_save tiff_path = Some jpg_path ->
      jpg_path = jpg_path_of tiff_path /\
      pil_save tiff_path jpg_path = true /\
      truthy jpg_path = true).
Proof.
  split; [|split].
  - intros stem ext H. unfold jpg_path_of, rsplit_dot_head.
    rewrite (rsplit_dot_app stem ext H). reflexivity.
  - intros path H. unfold jpg_path_of, rsplit_dot_head.
    rewrite (rsplit_dot_none path H). reflexivity.
  - intros pil_save tiff_path jpg_path. unfold convert_tiff_to_jpg.
    destruct (pil_save tiff_path (jpg_path_of tiff_path)) eqn:E; [|discriminate].
    intros [= <-]. split; [reflexivity|]. split; [exact E|].
    apply truthy_append_jpg.
Qed.

Lemma jpg_path_replaces_extension_witness :
  jpg_path_of "tiles.v2/east.tif" = "tiles.v2/east.jpg"%string /\
  jpg_path_of "tiles.v2/east" = "tiles.jpg"%string /\
  jpg_path_of "east" = "east.jpg"%string.
Proof.
  split; [|split].
  - apply (proj1 jpg_path_replaces_extension "tiles.v2/east"%string "tif"%string).
    reflexivity.
  - apply (proj1 jpg_path_replaces_extension "tiles"%string "v2/east"%string).
    reflexivity.
  - apply (proj1 (proj2 jpg_path_replaces_extension) "east"%string). reflexivity.
Defined.
